(** * CycloneDX Python: the BOM reader ([cyclonedx/bom/reader.py])

    A shallow embedding of the component-resolution and dependency-graph
    pipeline of [reader.py], followed by the properties established about it.

    Conventions of the embedding:
    - Python [str] is [string]; a JSON [null] / Python [None] is [None] of an
      [option];
    - a Python [dict] is an insertion-ordered association list ([Dict.t]),
      because the code iterates over dictionaries and the order is observable;
    - [print] and [raise] are threaded through the monad [M]: a computation
      yields the lines it printed, in order, and either a value or the
      exception that escaped;
    - the third-party collaborators ([packaging], [packageurl], [requests],
      [requirements], the BOM generator) and the built-in [str.strip] are
      the fields of an [Env]. *)

From Stdlib Require Import String Ascii List Bool Arith Lia.
From Stdlib Require Import Sorting.Sorted Sorting.Permutation.
Import ListNotations.
Open Scope string_scope.
Open Scope list_scope.

(** ** Python dictionaries with string keys *)

Module Dict.

Definition t (V : Type) : Type := list (string * V).

Definition empty {V : Type} : t V := [].

(** [for k in d] *)
Definition keys {V : Type} (d : t V) : list string := map fst d.

(** [d.get(k)] *)
Fixpoint get {V : Type} (d : t V) (k : string) : option V :=
  match d with
  | [] => None
  | (k', v) :: r => if String.eqb k k' then Some v else get r k
  end.

(** [k in d] *)
Definition mem {V : Type} (k : string) (d : t V) : bool :=
  existsb (String.eqb k) (keys d).

(** [d[k] = v]: an existing key keeps its position, a new key goes last. *)
Fixpoint set {V : Type} (d : t V) (k : string) (v : V) : t V :=
  match d with
  | [] => [(k, v)]
  | (k', v') :: r =>
      if String.eqb k k' then (k', v) :: r else (k', v') :: set r k v
  end.

(** [[d[k] for k in d]] *)
Definition values {V : Type} (d : t V) : list V := map snd d.

End Dict.

(** ** Data model *)

(** A requirement record as produced by the manifest parser, with the
    attributes that [get_component] reads.  [req_specs] is the list of
    (operator, version) tuples; a tuple is a list of strings so that the
    length test of [get_component] can be written as in the code. *)
Record Requirement : Type := mkRequirement {
  req_local_file : bool;
  req_path : string;
  req_name : string;
  req_specs : list (list string)
}.

(** Modelled from the spec: the classes of [cyclonedx.models] ([Hash],
    [License], [ComponentLicense], [Component], [Dependency]) are imported by
    [reader.py] but defined elsewhere.  Fields not given to a constructor
    start empty ([None] or the empty list). *)
Record Hash : Type := mkHash {
  alg : string;
  content : string
}.

Record License : Type := mkLicense {
  license_name : string
}.

Record ComponentLicense : Type := mkComponentLicense {
  license : License
}.

Record Component : Type := mkComponent {
  name : string;
  version : string;
  purl : string;
  component_type : string;
  publisher : option string;
  description : option string;
  requires_dist : option (list string);
  licenses : list ComponentLicense;
  hashes : list Hash
}.

Record Dependency : Type := mkDependency {
  ref : string;
  depends_on : list string
}.

(** Registry side: one published file of a release. *)
Record Release : Type := mkRelease {
  packagetype : string;
  digests : Dict.t string
}.

(** [package_info["info"]] *)
Record Info : Type := mkInfo {
  author : option string;
  summary : option string;
  info_requires_dist : option (list string);
  info_license : option string
}.

(** The decoded JSON document of the registry.  [pkg_name] is the top-level
    entry ["name"], which the error path of [get_release_info] reads; it is
    [None] when the document has no such entry. *)
Record PackageInfo : Type := mkPackageInfo {
  info : Info;
  releases : Dict.t (list Release);
  pkg_name : option string
}.

(** What [requests.get(url)] followed by [raise_for_status()] and [json()]
    gives: a [requests.RequestException], or the decoded document. *)
Inductive Response : Type :=
| RequestException : Response
| Json : PackageInfo -> Response.

(** [packaging.version.parse(v)], as far as the code looks at it. *)
Record Version : Type := mkVersion {
  is_prerelease : bool;
  is_postrelease : bool;
  is_devrelease : bool
}.

(** The collaborators outside [reader.py]. *)
Record Env : Type := mkEnv {
  (** [packaging.utils.canonicalize_version] *)
  canonicalize_version : string -> string;
  (** [packaging.version.parse], which gives a version object for every
      string (a legacy version when the string does not follow PEP 440) *)
  packaging_parse : string -> Version;
  (** [PackageURL(type, namespace, name, version, qualifiers, subpath).to_string()] *)
  PackageURL_to_string :
    string -> string -> string -> string -> string -> string -> string;
  (** [next(requirements.parse(req)).name] *)
  requirement_name : string -> string;
  (** [url.format(package_name=..., package_version=...)] *)
  url_format : string -> string -> string -> string;
  (** [requests.get(url, proxies=...)], [raise_for_status()], [json()] *)
  requests_get : string -> Response;
  (** [generator.build_json_bom], [generator.build_xml_bom] *)
  build_json_bom : list Component -> list Dependency -> string;
  build_xml_bom : list Component -> list Dependency -> string;
  (** the built-in [str.strip()] *)
  str_strip : string -> string
}.

(** ** Output and exceptions *)

Inductive exn : Type :=
| ValueError : string -> string -> string -> exn
| KeyError : string -> exn
| TypeError : string -> exn.

Inductive result (A : Type) : Type :=
| Ret : A -> result A
| Raise : exn -> result A.

Arguments Ret {A} _.
Arguments Raise {A} _.

(** A computation: the lines printed, then the value or the exception. *)
Definition M (A : Type) : Type := (list string * result A)%type.

Definition ret {A : Type} (a : A) : M A := ([], Ret a).

Definition raise {A : Type} (e : exn) : M A := ([], Raise e).

Definition print (line : string) : M unit := ([line], Ret tt).

Definition bind {A B : Type} (m : M A) (f : A -> M B) : M B :=
  match m with
  | (out, Ret a) => let (out', r) := f a in (out ++ out', r)
  | (out, Raise e) => (out, Raise e)
  end.

Notation "x <- m ;; k" := (bind m (fun x => k))
  (at level 61, m at next level, right associativity).
Notation "m ;;; k" := (bind m (fun _ => k))
  (at level 61, right associativity).

(** The lines printed and the outcome of a computation. *)
Definition output {A : Type} (m : M A) : list string := fst m.
Definition outcome {A : Type} (m : M A) : result A := snd m.

(** ** The functions of [reader.py] *)

Definition DEFAULT_PACKAGE_INFO_URL : string :=
  "https://pypi.org/pypi/{package_name}/{package_version}/json".

Section Reader.

Variable E : Env.

Definition get_package_info (package_name package_version url : string)
  : M (option PackageInfo) :=
  let url := url_format E url package_name package_version in
  match requests_get E url with
  | Json package_info => ret (Some package_info)
  | RequestException =>
      print ("WARNING: could not retrieve package info for " ++ package_name) ;;;
      ret None
  end.

Definition generate_purl (package_name package_version : string) : string :=
  PackageURL_to_string E "pypi" "" package_name package_version "" "".

Definition mapping : Dict.t string :=
  [ ("md5", "MD5"); ("sha1", "SHA-1"); ("sha256", "SHA-256");
    ("sha512", "SHA-512") ].

Definition translate_digests (digests : Dict.t string) : list Hash :=
  flat_map
    (fun k =>
       match Dict.get mapping k, Dict.get digests k with
       | Some a, Some d => [mkHash a d]
       | _, _ => []
       end)
    (Dict.keys digests).

(** [for release in release_dict] visits the keys of the dictionary in
    order; [release_dict] is that sequence of keys. *)
Fixpoint _get_pypi_version (special_version : string) (release_dict : list string)
  : option string :=
  match release_dict with
  | [] => None
  | release :: rest =>
      let pypi_version := canonicalize_version E release in
      if String.eqb special_version pypi_version
         || String.eqb special_version release
      then Some release
      else _get_pypi_version special_version rest
  end.

(** [parsed.is_prerelease or parsed.is_postrelease or parsed.is_devrelease] *)
Definition is_special (v : string) : bool :=
  let parsed_version := packaging_parse E v in
  is_prerelease parsed_version || is_postrelease parsed_version
  || is_devrelease parsed_version.

(** [package_info['name']]: a [KeyError] when the entry is missing. *)
Definition package_info_name (package_info : PackageInfo) : M string :=
  match pkg_name package_info with
  | Some n => ret n
  | None => raise (KeyError "name")
  end.

(** [releases_info[k]] *)
Definition releases_item (releases_info : Dict.t (list Release)) (k : string)
  : M (list Release) :=
  match Dict.get releases_info k with
  | Some l => ret l
  | None => raise (KeyError k)
  end.

(** The [else] branch of [get_release_info]; the arguments of [ValueError]
    are evaluated before it is raised. *)
Definition no_matching_version {A : Type} (package_info : PackageInfo)
    (specified_version : string) : M A :=
  n <- package_info_name package_info ;;
  raise (ValueError "Could not find a matching normalized version string"
           n specified_version).

(** [if pypi_version:] holds for a string that is not empty. *)
Definition get_release_info (package_info : PackageInfo) (specified_version : string)
  : M (option (list Release)) :=
  let releases_info := releases package_info in
  let release_info := Dict.get releases_info specified_version in
  if is_special specified_version then
    match _get_pypi_version specified_version (Dict.keys releases_info) with
    | Some pypi_version =>
        if String.eqb pypi_version "" then
          no_matching_version package_info specified_version
        else
          l <- releases_item releases_info pypi_version ;;
          ret (Some l)
    | None => no_matching_version package_info specified_version
    end
  else ret release_info.

Definition has_wheel (releases : list Release) : bool :=
  existsb (fun r => String.eqb (packagetype r) "bdist_wheel") releases.

Definition relevant_releases (releases : list Release) : list Release :=
  let has_wheel := has_wheel releases in
  filter
    (fun r =>
       has_wheel && String.eqb (packagetype r) "bdist_wheel"
       || negb has_wheel && String.eqb (packagetype r) "sdist")
    releases.

(** The inner loop: [hashes[release_hash.alg] = release_hash]. *)
Definition add_hashes (hashes : Dict.t Hash) (release_hashes : list Hash)
  : Dict.t Hash :=
  fold_left (fun hs release_hash => Dict.set hs (alg release_hash) release_hash)
    release_hashes hashes.

Definition get_hashes (releases : list Release) : list Hash :=
  let hashes :=
    fold_left
      (fun hs release => add_hashes hs (translate_digests (digests release)))
      (relevant_releases releases) Dict.empty in
  Dict.values hashes.


(** Modelled from the spec: the order of [Hash] objects used by
    [component.hashes.sort()] is defined in [cyclonedx.models]; the hashes
    are sorted by algorithm name.  [list.sort] is stable, and so is this
    insertion sort. *)
Fixpoint insert_hash (h : Hash) (l : list Hash) : list Hash :=
  match l with
  | [] => [h]
  | y :: l' =>
      if String.ltb (alg y) (alg h) then y :: insert_hash h l' else h :: l
  end.

Fixpoint sort (l : list Hash) : list Hash :=
  match l with
  | [] => []
  | h :: l' => insert_hash h (sort l')
  end.

(** [package_license and package_license != 'UNKNOWN'
     and len(package_license.strip()) > 0] *)
Definition license_given (package_license : option string) : bool :=
  match package_license with
  | Some l =>
      negb (String.eqb l "") && negb (String.eqb l "UNKNOWN")
      && (0 <? String.length (str_strip E l))%nat
  | None => false
  end.

Definition license_of (package_license : option string) : list ComponentLicense :=
  match package_license with
  | Some l =>
      if license_given package_license
      then [mkComponentLicense (mkLicense l)] else []
  | None => []
  end.

(** The assignments of [get_component] under [if package_info:], up to
    the license. *)
Definition with_info (component : Component) (package_info : PackageInfo)
  : Component :=
  let i := info package_info in
  mkComponent (name component) (version component) (purl component)
    (component_type component)
    (author i) (summary i) (info_requires_dist i)
    (licenses component ++ license_of (info_license i))
    (hashes component).

Definition with_hashes (component : Component) (hs : list Hash) : Component :=
  mkComponent (name component) (version component) (purl component)
    (component_type component) (publisher component) (description component)
    (requires_dist component) (licenses component) hs.

Definition get_component (req : Requirement) (package_info_url : string)
  : M (option Component) :=
  if req_local_file req then
    print ("WARNING: Local file " ++ req_path req
           ++ " does not have versions. Skipping.") ;;;
    ret None
  else
    match req_specs req with
    | [] =>
        print ("WARNING: " ++ req_name req
               ++ " does not have a version specified. Skipping.") ;;;
        ret None
    | spec0 :: _ =>
        if (length spec0 <? 2)%nat then ret None
        else
          let op := nth 0 spec0 "" in
          let ver := nth 1 spec0 "" in
          let component :=
            mkComponent (req_name req) ver (generate_purl (req_name req) ver)
              "library" None None None [] [] in
          (if negb (String.eqb op "==") then
             print ("WARNING: " ++ name component
                    ++ " is not pinned to a specific version. Using: "
                    ++ version component)
           else ret tt) ;;;
          package_info <-
            get_package_info (name component) (version component)
              package_info_url ;;
          match package_info with
          | Some package_info =>
              let component := with_info component package_info in
              if Dict.mem (version component) (releases package_info) then
                release_info <-
                  get_release_info package_info (version component) ;;
                match release_info with
                | Some release_info =>
                    ret (Some (with_hashes component
                                 (sort (get_hashes release_info))))
                | None => raise (TypeError "'NoneType' object is not iterable")
                end
              else
                print ("WARNING: " ++ name component ++ "=="
                       ++ version component
                       ++ " could not be found in PyPi") ;;;
                ret (Some component)
          | None => ret (Some component)
          end
    end.

Definition get_dependency (components : list Component) (component : Component)
  : Dependency :=
  let dependency := mkDependency (purl component) [] in
  match requires_dist component with
  | Some ((_ :: _) as reqs) =>
      fold_left
        (fun dependency req =>
           let req_component :=
             filter (fun c => String.eqb (name c) (requirement_name E req))
               components in
           match req_component with
           | c0 :: _ =>
               mkDependency (ref dependency)
                 (depends_on dependency ++ [purl c0])
           | [] => dependency
           end)
        reqs dependency
  | _ => dependency
  end.

(** The first loop of [read_bom], over the components that [get_component]
    yields one by one. *)
Fixpoint collect_components (reqs : list Requirement) (package_info_url : string)
    (components : list Component) (added_purls : list string)
  : M (list Component) :=
  match reqs with
  | [] => ret components
  | req :: rest =>
      component <- get_component req package_info_url ;;
      match component with
      | Some c =>
          if negb (existsb (String.eqb (purl c)) added_purls) then
            collect_components rest package_info_url
              (components ++ [c]) (added_purls ++ [purl c])
          else collect_components rest package_info_url components added_purls
      | None => collect_components rest package_info_url components added_purls
      end
  end.

(** The second loop of [read_bom]. *)
Definition collect_dependencies (components : list Component) : list Dependency :=
  fold_left (fun dependencies component =>
               dependencies ++ [get_dependency components component])
    components [].

(** [read_bom] up to the call of the generator: the component list and the
    dependency list that the generator receives.  [fd] is the manifest as
    the parser yields it. *)
Definition read_bom_lists (fd : list Requirement) (package_info_url : string)
  : M (list Component * list Dependency) :=
  print "Generating CycloneDX BOM" ;;;
  components <- collect_components fd package_info_url [] [] ;;
  ret (components, collect_dependencies components).

Definition read_bom (fd : list Requirement) (package_info_url : string)
    (json : bool) : M string :=
  lists <- read_bom_lists fd package_info_url ;;
  let (components, dependencies) := lists in
  if json then ret (build_json_bom E components dependencies)
  else ret (build_xml_bom E components dependencies).

End Reader.

(** ** Records of the parser without a name

    The manifest parser gives every record the attributes [local_file],
    [path], [name] and [specs].  [name] is [None] for a line that names no
    package, such as a URL without an egg fragment; such a record has no
    specifier.  [Requirement] covers the records with a name;
    [Unnamed local_file path] is a record without one. *)
Inductive ParsedRequirement : Type :=
| Named : Requirement -> ParsedRequirement
| Unnamed : bool -> string -> ParsedRequirement.

(** The message of the [TypeError] that [str + None] raises. *)
Definition concatenate_None : string :=
  "can only concatenate str (not "
  ++ String (ascii_of_nat 34) ("NoneType" ++ String (ascii_of_nat 34) ") to str").

(** [get_component] on any record of the parser.  A record without a name
    that is a local file takes the first return; otherwise [not req.specs]
    holds, and ["WARNING: " + req.name] raises before anything is printed. *)
Definition get_component_parsed (E : Env) (req : ParsedRequirement)
    (package_info_url : string) : M (option Component) :=
  match req with
  | Named r => get_component E r package_info_url
  | Unnamed local_file path =>
      if local_file then
        print ("WARNING: Local file " ++ path
               ++ " does not have versions. Skipping.") ;;;
        ret None
      else raise (TypeError concatenate_None)
  end.

(** ** Notions used to state the properties *)

(** The digest recorded under the registry's algorithm name [k] by the last
    artifact of [kept] whose digests have an entry for [k]. *)
Definition last_digest (k : string) (kept : list Release) : option string :=
  match find (fun r => Dict.mem k (digests r)) (rev kept) with
  | Some r => Dict.get (digests r) k
  | None => None
  end.

(** The test of the scan in [_get_pypi_version]: the requested version, as
    written, is the canonical form of the key or the key itself. *)
Definition equivalent_key (E : Env) (special_version k : string) : Prop :=
  special_version = canonicalize_version E k \/ special_version = k.

(** [x] is the first element of [l] that satisfies [p]. *)
Definition first_such {A : Type} (p : A -> Prop) (l : list A) (x : A) : Prop :=
  exists i, nth_error l i = Some x /\ p x
            /\ forall j y, j < i -> nth_error l j = Some y -> ~ p y.

(** The components in the sequence that [get_component] yields, [None]
    entries dropped. *)
Definition yielded (all_components : list (option Component)) : list Component :=
  flat_map (fun oc => match oc with Some c => [c] | None => [] end) all_components.

(** [c] is the first element of [l] with its identifier. *)
Definition first_with_purl (l : list Component) (c : Component) : Prop :=
  first_such (fun c' => purl c' = purl c) l c.

(** The first loop of [read_bom] on a sequence that is already computed. *)
Fixpoint deduplicate (all_components : list (option Component))
    (components : list Component) (added_purls : list string) : list Component :=
  match all_components with
  | [] => components
  | Some c :: rest =>
      if negb (existsb (String.eqb (purl c)) added_purls) then
        deduplicate rest (components ++ [c]) (added_purls ++ [purl c])
      else deduplicate rest components added_purls
  | None :: rest => deduplicate rest components added_purls
  end.

(** [l1] is [l2] with some elements left out, the others in their order. *)
Inductive subsequence {A : Type} : list A -> list A -> Prop :=
| subseq_nil : subsequence [] []
| subseq_skip : forall x l1 l2, subsequence l1 l2 -> subsequence l1 (x :: l2)
| subseq_keep : forall x l1 l2, subsequence l1 l2 -> subsequence (x :: l1) (x :: l2).

(** The outcomes of [get_component] on each requirement of a manifest, when
    none of them raises. *)
Fixpoint all_components (E : Env) (reqs : list Requirement) (url : string)
  : option (list (option Component)) :=
  match reqs with
  | [] => Some []
  | req :: rest =>
      match outcome (get_component E req url), all_components E rest url with
      | Ret oc, Some l => Some (oc :: l)
      | _, _ => None
      end
  end.

(** The target of one declared requirement string: the identifier of the
    first component of the resolved list whose name is the parsed name. *)
Definition target_of (E : Env) (components : list Component) (req : string)
  : list string :=
  match find (fun c => String.eqb (name c) (requirement_name E req)) components with
  | Some c => [purl c]
  | None => []
  end.

(** The declared requirement strings of a component, none when the registry
    gave [null]. *)
Definition declared (c : Component) : list string :=
  match requires_dist c with
  | Some l => l
  | None => []
  end.

(** The version normalizer as the specification words it: a verbatim key
    first; otherwise, for a special version, the first key equal to the
    requested version after canonicalizing both, or equal to it as written. *)
Definition normalize_spec (E : Env) (requested_version : string)
    (available_releases : list string) : option string :=
  if existsb (String.eqb requested_version) available_releases
  then Some requested_version
  else if is_special E requested_version then
    find (fun k =>
            String.eqb (canonicalize_version E k)
              (canonicalize_version E requested_version)
            || String.eqb k requested_version)
      available_releases
  else None.

(** The skip conditions of the resolver. *)
Definition skip_local_file (req : Requirement) : Prop :=
  req_local_file req = true.

Definition skip_no_specifier (req : Requirement) : Prop :=
  req_local_file req = false /\ req_specs req = [].

Definition skip_malformed (req : Requirement) : Prop :=
  req_local_file req = false
  /\ exists spec0 rest, req_specs req = spec0 :: rest /\ length spec0 < 2.

(** A requirement that is resolved: operator [op], version [ver]. *)
Definition pinned (req : Requirement) (op ver : string) : Prop :=
  req_local_file req = false
  /\ exists more rest, req_specs req = (op :: ver :: more) :: rest.

(** The component built from the requirement alone. *)
Definition minimal_component (E : Env) (n ver : string) : Component :=
  mkComponent n ver (generate_purl E n ver) "library" None None None [] [].

(** The line printed for an operator other than [==]. *)
Definition unpinned_warning (op n ver : string) : list string :=
  if negb (String.eqb op "==") then
    [("WARNING: " ++ n ++ " is not pinned to a specific version. Using: "
      ++ ver)%string]
  else [].

Definition retrieval_warning (n : string) : string :=
  ("WARNING: could not retrieve package info for " ++ n)%string.

Definition not_found_warning (n ver : string) : string :=
  ("WARNING: " ++ n ++ "==" ++ ver ++ " could not be found in PyPi")%string.

(** The hashes are in the order of their algorithm names. *)
Definition sorted_by_alg (l : list Hash) : Prop :=
  Sorted (fun h1 h2 => String.leb (alg h1) (alg h2) = true) l.

(** The empty string is not a version: [canonicalize_version] returns a
    string that does not parse unchanged, and its parse has no flag set. *)
Definition empty_is_no_version (E : Env) : Prop :=
  canonicalize_version E "" = "" /\ is_special E "" = false.

(** The position of a tag among the values of [mapping], and the tag at a
    position. *)
Definition alg_rank (a : string) : nat :=
  if String.eqb a "MD5" then 0
  else if String.eqb a "SHA-1" then 1
  else if String.eqb a "SHA-256" then 2
  else 3.

Definition alg_tag (n : nat) : string := nth n (Dict.values mapping) "".

(** ** A sample environment

    Values of the collaborators on the inputs used in the examples below.
    [pep440_samples] lists, for some version strings, the result of
    [canonicalize_version] (which drops trailing zero components of the
    release segment and writes the pre-release tag without separator) and
    the three flags of the parsed version; a string not listed is left
    unchanged and has no flag set, as for a version that does not parse. *)

Definition pep440_samples : Dict.t (string * Version) :=
  [ ("1.0.0rc1", ("1rc1", mkVersion true false false));
    ("1.0.0-rc1", ("1rc1", mkVersion true false false));
    ("1rc1", ("1rc1", mkVersion true false false));
    ("1.2.3rc1", ("1.2.3rc1", mkVersion true false false));
    ("1.2.3-rc1", ("1.2.3rc1", mkVersion true false false));
    ("1.0.post1", ("1.post1", mkVersion false true false));
    ("1.0", ("1", mkVersion false false false));
    ("2.0", ("2", mkVersion false false false)) ].

Definition sample_canonicalize_version (v : string) : string :=
  match Dict.get pep440_samples v with
  | Some (c, _) => c
  | None => v
  end.

Definition sample_packaging_parse (v : string) : Version :=
  match Dict.get pep440_samples v with
  | Some (_, p) => p
  | None => mkVersion false false false
  end.

Definition sample_purl (type namespace n v qualifiers subpath : string) : string :=
  "pkg:" ++ type ++ "/" ++ n ++ "@" ++ v.

(** The name of a requirement string: what precedes the version specifier. *)
Fixpoint sample_requirement_name (s : string) : string :=
  match s with
  | EmptyString => EmptyString
  | String c s' =>
      if existsb (Ascii.eqb c) (list_ascii_of_string "<>=!~;( ")
      then EmptyString else String c (sample_requirement_name s')
  end.

Definition sample_url_format (url n v : string) : string :=
  url ++ "?" ++ n ++ "/" ++ v.

(** [str.strip()] on text whose white space is ASCII: the characters 9 to
    13 and 28 to 32 are removed at both ends. *)
Definition ascii_space (c : ascii) : bool :=
  let n := nat_of_ascii c in
  ((9 <=? n) && (n <=? 13) || (28 <=? n) && (n <=? 32))%nat.

Fixpoint ascii_lstrip (s : string) : string :=
  match s with
  | EmptyString => EmptyString
  | String c s' => if ascii_space c then ascii_lstrip s' else s
  end.

Fixpoint string_rev (s acc : string) : string :=
  match s with
  | EmptyString => acc
  | String c s' => string_rev s' (String c acc)
  end.

Definition sample_str_strip (s : string) : string :=
  string_rev (ascii_lstrip (string_rev (ascii_lstrip s) EmptyString)) EmptyString.

Definition sdist_A : Release := mkRelease "sdist" [("sha256", "A")].
Definition wheel_B : Release := mkRelease "bdist_wheel" [("sha256", "B")].
Definition wheel_C : Release := mkRelease "bdist_wheel" [("md5", "C")].

Definition sample_info : Info :=
  mkInfo (Some "Alice") (Some "A package") (Some ["b>=2.0"; "zzz"]) (Some "MIT").

(** Package [a]: release ["1.0"] with three files, release ["0.9"] without files. *)
Definition package_a : PackageInfo :=
  mkPackageInfo sample_info
    [("0.9", []); ("1.0", [sdist_A; wheel_B; wheel_C])] None.

(** Package [b]: the index has the key ["1.0.0-rc1"] only. *)
Definition package_b : PackageInfo :=
  mkPackageInfo (mkInfo None None None None) [("1.0.0-rc1", [sdist_A])] (Some "b").

(** Package [c]: two keys for the same version, the canonical one last. *)
Definition package_c : PackageInfo :=
  mkPackageInfo (mkInfo None None None None)
    [("1.0.0rc1", [sdist_A]); ("1rc1", [wheel_B])] (Some "c").

(** Package [d]: the index has the key ["1.2.3rc1"] only. *)
Definition package_d : PackageInfo :=
  mkPackageInfo (mkInfo None None None None) [("1.2.3rc1", [sdist_A])] (Some "d").

Definition sample_registry : Dict.t Response :=
  [ ("u?a/1.0", Json package_a); ("u?a/0.9", Json package_a);
    ("u?b/1.0.0rc1", Json package_b); ("u?c/1rc1", Json package_c) ].

Definition sample_requests_get (url : string) : Response :=
  match Dict.get sample_registry url with
  | Some r => r
  | None => RequestException
  end.

Definition sample_env : Env :=
  mkEnv sample_canonicalize_version sample_packaging_parse sample_purl
    sample_requirement_name sample_url_format sample_requests_get
    (fun _ _ => "json") (fun _ _ => "xml") sample_str_strip.

Definition req_a : Requirement := mkRequirement false "" "a" [["=="; "1.0"]].
Definition req_a_old : Requirement := mkRequirement false "" "a" [["=="; "0.9"]].
Definition req_b : Requirement := mkRequirement false "" "b" [["=="; "1.0.0rc1"]].
Definition req_x : Requirement := mkRequirement false "" "x" [[">="; "3"]].
Definition req_file : Requirement := mkRequirement true "./pkg" "" [].
Definition req_bare : Requirement := mkRequirement false "" "bare" [].
Definition req_malformed : Requirement := mkRequirement false "" "m" [["=="]].

(** * Properties *)

(** ** Dictionaries *)

Module DictFacts.

Lemma get_set {V : Type} (d : Dict.t V) (k k' : string) (v : V) :
  Dict.get (Dict.set d k v) k' =
  if String.eqb k' k then Some v else Dict.get d k'.
Proof.
  induction d as [|[k0 v0] d IH]; simpl.
  - reflexivity.
  - destruct (String.eqb_spec k k0) as [->|Hk]; simpl.
    + destruct (String.eqb_spec k' k0); reflexivity.
    + rewrite IH.
      destruct (String.eqb_spec k' k0) as [->|]; [|reflexivity].
      destruct (String.eqb_spec k0 k); congruence.
Qed.

Lemma keys_set {V : Type} (d : Dict.t V) (k : string) (v : V) :
  Dict.keys (Dict.set d k v) =
  if Dict.mem k d then Dict.keys d else Dict.keys d ++ [k].
Proof.
  unfold Dict.mem.
  induction d as [|[k0 v0] d IH]; simpl.
  - reflexivity.
  - destruct (String.eqb_spec k k0) as [->|Hk]; simpl.
    + reflexivity.
    + rewrite IH.
      destruct (existsb (String.eqb k) (Dict.keys d)); reflexivity.
Qed.

Lemma mem_In {V : Type} (d : Dict.t V) (k : string) :
  Dict.mem k d = true <-> In k (Dict.keys d).
Proof.
  unfold Dict.mem. rewrite existsb_exists. split.
  - intros (x & Hx & Heq). apply String.eqb_eq in Heq. now subst.
  - intros H. exists k. split; [assumption | apply String.eqb_refl].
Qed.

Lemma get_None {V : Type} (d : Dict.t V) (k : string) :
  Dict.get d k = None <-> ~ In k (Dict.keys d).
Proof.
  induction d as [|[k0 v0] d IH]; simpl.
  - tauto.
  - destruct (String.eqb_spec k k0) as [->|Hk].
    + split; [discriminate | intros H; exfalso; apply H; now left].
    + rewrite IH. split.
      * intros H [H1|H1]; [congruence | tauto].
      * tauto.
Qed.

Lemma get_In {V : Type} (d : Dict.t V) (k : string) (v : V) :
  Dict.get d k = Some v -> In (k, v) d.
Proof.
  induction d as [|[k0 v0] d IH]; simpl; [discriminate|].
  destruct (String.eqb_spec k k0) as [->|Hk].
  - intros [= ->]. now left.
  - intros H. right. now apply IH.
Qed.

Lemma In_get {V : Type} (d : Dict.t V) (k : string) (v : V) :
  NoDup (Dict.keys d) -> In (k, v) d -> Dict.get d k = Some v.
Proof.
  induction d as [|[k0 v0] d IH]; simpl; [tauto|].
  intros Hnd [Heq|Hin].
  - injection Heq as -> ->. now rewrite String.eqb_refl.
  - inversion Hnd as [|? ? Hnotin Hnd']; subst.
    destruct (String.eqb_spec k k0) as [->|Hk].
    + exfalso. apply Hnotin. change k0 with (fst (k0, v)).
      now apply in_map.
    + now apply IH.
Qed.

Lemma NoDup_keys_set {V : Type} (d : Dict.t V) (k : string) (v : V) :
  NoDup (Dict.keys d) -> NoDup (Dict.keys (Dict.set d k v)).
Proof.
  intros Hnd. rewrite keys_set.
  destruct (Dict.mem k d) eqn:Hmem; [assumption|].
  apply NoDup_app; [assumption | repeat constructor; simpl; tauto |].
  intros x Hx [<-|[]].
  apply mem_In in Hx. congruence.
Qed.

Lemma In_set {V : Type} (d : Dict.t V) (k k' : string) (v v' : V) :
  In (k', v') (Dict.set d k v) -> (k' = k /\ v' = v) \/ In (k', v') d.
Proof.
  induction d as [|[k0 v0] d IH]; simpl.
  - intros [[= <- <-]|[]]. now left.
  - destruct (String.eqb_spec k k0) as [->|Hk]; simpl.
    + intros [[= <- <-]|H]; [now left | right; now right].
    + intros [H|H]; [right; now left|].
      destruct (IH H); [now left | right; now right].
Qed.

End DictFacts.

(** ** The monad *)

Lemma bind_ret_l {A B : Type} (a : A) (f : A -> M B) : bind (ret a) f = f a.
Proof. unfold bind, ret. simpl. now destruct (f a). Qed.

Lemma bind_outcome_Ret {A B : Type} (m : M A) (f : A -> M B) (b : B) :
  outcome (bind m f) = Ret b ->
  exists a, outcome m = Ret a /\ outcome (f a) = Ret b.
Proof.
  destruct m as [out [a|e]]; simpl.
  - destruct (f a) as [out' r] eqn:Hf. simpl. intros ->.
    exists a. now rewrite Hf.
  - discriminate.
Qed.

Lemma bind_outcome_Raise {A B : Type} (m : M A) (f : A -> M B) (e : exn) :
  outcome (bind m f) = Raise e ->
  outcome m = Raise e \/ exists a, outcome m = Ret a /\ outcome (f a) = Raise e.
Proof.
  destruct m as [out [a|e']]; simpl.
  - destruct (f a) as [out' r] eqn:Hf. simpl. intros ->.
    right. exists a. now rewrite Hf.
  - intros [= ->]. now left.
Qed.

Lemma bind_Ret {A B : Type} (out : list string) (a : A) (f : A -> M B) :
  bind (out, Ret a) f = (out ++ output (f a), outcome (f a)).
Proof. unfold bind, output, outcome. now destruct (f a). Qed.

(** ** Hash selector *)

Section HashSelector.

Lemma find_app {A : Type} (p : A -> bool) (l1 l2 : list A) :
  find p (l1 ++ l2) =
  match find p l1 with Some x => Some x | None => find p l2 end.
Proof.
  induction l1 as [|x l1 IH]; simpl; [reflexivity|].
  now destruct (p x).
Qed.

Lemma find_none_iff {A : Type} (p : A -> bool) (l : list A) :
  find p l = None <-> forall x, In x l -> p x = false.
Proof.
  split.
  - apply find_none.
  - induction l as [|x l IH]; simpl; [reflexivity|].
    intros H. rewrite (H x (or_introl eq_refl)). apply IH.
    intros y Hy. apply H. now right.
Qed.

(** The recognized algorithm names are pairwise distinct, and so are
    their tags. *)
Lemma mapping_inj (k k' a : string) :
  Dict.get mapping k = Some a -> Dict.get mapping k' = Some a -> k = k'.
Proof.
  unfold mapping. simpl.
  repeat match goal with
         | |- context [String.eqb ?x ?y] =>
             destruct (String.eqb_spec x y); subst
         end; congruence.
Qed.

Lemma translate_digests_alg (dg : Dict.t string) (h : Hash) :
  In h (translate_digests dg) ->
  exists k, In k (Dict.keys dg) /\ Dict.get mapping k = Some (alg h)
            /\ Dict.get dg k = Some (content h).
Proof.
  unfold translate_digests. rewrite in_flat_map.
  intros (k & Hk & Hin). exists k.
  destruct (Dict.get mapping k) as [a|]; [|destruct Hin].
  destruct (Dict.get dg k) as [d|]; [|destruct Hin].
  destruct Hin as [<-|[]]. simpl. auto.
Qed.

(** Looking up a tag in the dictionary that the inner loop builds. *)
Lemma get_add_hashes (l : list Hash) (d : Dict.t Hash) (a : string) :
  Dict.get (add_hashes d l) a =
  match find (fun h => String.eqb (alg h) a) (rev l) with
  | Some h => Some h
  | None => Dict.get d a
  end.
Proof.
  revert d. induction l as [|h l IH]; intros d; simpl; [reflexivity|].
  unfold add_hashes in *. simpl. rewrite IH, find_app. simpl.
  destruct (find (fun h0 => String.eqb (alg h0) a) (rev l)); [reflexivity|].
  rewrite DictFacts.get_set, (String.eqb_sym a).
  now destruct (String.eqb (alg h) a).
Qed.

Lemma add_hashes_app (d : Dict.t Hash) (l1 l2 : list Hash) :
  add_hashes d (l1 ++ l2) = add_hashes (add_hashes d l1) l2.
Proof. unfold add_hashes. apply fold_left_app. Qed.

(** The two nested loops are one loop over all translated digests. *)
Lemma fold_add_hashes (kept : list Release) (d : Dict.t Hash) :
  fold_left (fun hs release => add_hashes hs (translate_digests (digests release)))
    kept d
  = add_hashes d (flat_map (fun r => translate_digests (digests r)) kept).
Proof.
  revert d. induction kept as [|r kept IH]; intros d; simpl; [reflexivity|].
  now rewrite IH, add_hashes_app.
Qed.

(** Entries are filed under their own tag, and no tag is filed twice. *)
Lemma add_hashes_wf (l : list Hash) (d : Dict.t Hash) :
  NoDup (Dict.keys d) -> (forall k h, In (k, h) d -> k = alg h) ->
  NoDup (Dict.keys (add_hashes d l))
  /\ (forall k h, In (k, h) (add_hashes d l) -> k = alg h).
Proof.
  revert d. induction l as [|h0 l IH]; intros d Hnd Hk; simpl; [auto|].
  apply IH.
  - now apply DictFacts.NoDup_keys_set.
  - intros k h Hin. apply DictFacts.In_set in Hin as [[-> ->]|Hin]; auto.
Qed.

Lemma find_translate_digests (k a : string) (dg : Dict.t string) :
  Dict.get mapping k = Some a ->
  find (fun h => String.eqb (alg h) a) (rev (translate_digests dg))
  = if Dict.mem k dg then option_map (mkHash a) (Dict.get dg k) else None.
Proof.
  intros Hk. unfold translate_digests, Dict.mem.
  induction (Dict.keys dg) as [|k0 ks IH]; cbn [flat_map existsb rev find];
    [reflexivity|].
  rewrite rev_app_distr, find_app, IH.
  destruct (String.eqb_spec k k0) as [<-|Hne]; cbn [orb].
  - rewrite Hk.
    destruct (Dict.get dg k) as [d|] eqn:Hd; cbn.
    + rewrite String.eqb_refl. now destruct (existsb (String.eqb k) ks).
    + now destruct (existsb (String.eqb k) ks).
  - match goal with
    | |- match _ with Some x => Some x | None => ?other end = _ =>
        assert (Hother : other = None)
    end.
    { destruct (Dict.get mapping k0) as [a0|] eqn:Hk0; [|reflexivity].
      destruct (Dict.get dg k0) as [d0|]; [|reflexivity]. cbn.
      destruct (String.eqb_spec a0 a) as [->|]; [|reflexivity].
      exfalso. apply Hne. eapply mapping_inj; eassumption. }
    rewrite Hother.
    now destruct (existsb (String.eqb k) ks),
      (option_map (mkHash a) (Dict.get dg k)).
Qed.

Lemma mem_get_Some {V : Type} (k : string) (d : Dict.t V) :
  Dict.mem k d = true -> exists v, Dict.get d k = Some v.
Proof.
  intros H. destruct (Dict.get d k) as [v|] eqn:Hg; [eauto|].
  apply DictFacts.get_None in Hg. apply DictFacts.mem_In in H. tauto.
Qed.

Lemma find_all_digests (k a : string) (kept : list Release) :
  Dict.get mapping k = Some a ->
  find (fun h => String.eqb (alg h) a)
    (rev (flat_map (fun r => translate_digests (digests r)) kept))
  = option_map (mkHash a) (last_digest k kept).
Proof.
  intros Hk. unfold last_digest.
  induction kept as [|r kept IH] using rev_ind; simpl; [reflexivity|].
  rewrite flat_map_app, !rev_app_distr. simpl.
  rewrite app_nil_r, find_app, (find_translate_digests k a (digests r) Hk).
  destruct (Dict.mem k (digests r)) eqn:Hmem; [|exact IH].
  destruct (mem_get_Some _ _ Hmem) as [d ->]. reflexivity.
Qed.

(** Membership in the selected hashes, for a recognized algorithm. *)
Lemma get_hashes_In (releases : list Release) (k a d : string) :
  Dict.get mapping k = Some a ->
  In (mkHash a d) (get_hashes releases)
  <-> last_digest k (relevant_releases releases) = Some d.
Proof.
  intros Hk. unfold get_hashes. rewrite fold_add_hashes.
  set (l := flat_map _ _).
  destruct (add_hashes_wf l Dict.empty) as [Hnd Hkey];
    [constructor | intros ? ? [] |].
  assert (Hget : Dict.get (add_hashes Dict.empty l) a
                 = option_map (mkHash a)
                     (last_digest k (relevant_releases releases))).
  { rewrite get_add_hashes. unfold l.
    rewrite (find_all_digests k a _ Hk).
    now destruct (last_digest k (relevant_releases releases)). }
  unfold Dict.values. rewrite in_map_iff. split.
  - intros ([k0 h] & Heq & Hin). simpl in Heq. subst h.
    pose proof (Hkey _ _ Hin) as Hk0. simpl in Hk0. subst k0.
    apply (DictFacts.In_get _ _ _ Hnd) in Hin. rewrite Hget in Hin.
    destruct (last_digest k (relevant_releases releases)); simpl in Hin;
      congruence.
  - intros Hl. rewrite Hl in Hget. simpl in Hget.
    apply DictFacts.get_In in Hget.
    exists (a, mkHash a d). auto.
Qed.

Lemma get_hashes_recognized (releases : list Release) (h : Hash) :
  In h (get_hashes releases) ->
  exists k r, In r (relevant_releases releases) /\ In k (Dict.keys (digests r))
              /\ Dict.get mapping k = Some (alg h).
Proof.
  unfold get_hashes. rewrite fold_add_hashes.
  set (l := flat_map _ _).
  assert (Hsub : forall l0 d k0 h0, In (k0, h0) (add_hashes d l0) ->
                                    In h0 l0 \/ In (k0, h0) d).
  { induction l0 as [|x l0 IH]; intros d0 k0 h0; simpl; [auto|].
    intros Hin. apply IH in Hin as [Hin|Hin]; [auto|].
    apply DictFacts.In_set in Hin as [[_ ->]|Hin]; auto. }
  unfold Dict.values. rewrite in_map_iff.
  intros ([k0 h0] & Heq & Hin). simpl in Heq. subst h0.
  apply Hsub in Hin as [Hin|[]].
  unfold l in Hin. apply in_flat_map in Hin as (r & Hr & Hin).
  apply translate_digests_alg in Hin as (k & Hkin & Hmap & _).
  eauto.
Qed.

Lemma get_hashes_NoDup (releases : list Release) :
  NoDup (map alg (get_hashes releases)).
Proof.
  unfold get_hashes. rewrite fold_add_hashes.
  set (l := flat_map _ _).
  destruct (add_hashes_wf l Dict.empty) as [Hnd Hkey];
    [constructor | intros ? ? [] |].
  replace (map alg (Dict.values (add_hashes Dict.empty l)))
    with (Dict.keys (add_hashes Dict.empty l)); [assumption|].
  unfold Dict.values, Dict.keys. rewrite map_map.
  apply map_ext_in. intros [k0 h0] Hin. simpl. now apply Hkey.
Qed.

Lemma relevant_releases_In (releases : list Release) (r : Release) :
  In r (relevant_releases releases)
  <-> In r releases
      /\ packagetype r = if has_wheel releases then "bdist_wheel" else "sdist".
Proof.
  unfold relevant_releases. rewrite filter_In.
  destruct (has_wheel releases); simpl;
    rewrite ?orb_false_r, String.eqb_eq; tauto.
Qed.

End HashSelector.

(** C3 — hash selector policy.  For every list of release artifacts: wheels
    are present exactly when some artifact has type [bdist_wheel]; the kept
    artifacts are the wheels if there is one and the source distributions
    otherwise, whatever other types occur; for each recognized algorithm the
    selected digest is the one of the last kept artifact providing it;
    every selected hash has a recognized algorithm, and each algorithm
    occurs once.  On the artifacts source/sha256 [A], binary/sha256 [B],
    binary/md5 [C] the selection is SHA-256 [B] and MD5 [C]. *)
Theorem get_hashes_policy :
  forall releases : list Release,
    (has_wheel releases = true
     <-> exists r, In r releases /\ packagetype r = "bdist_wheel")
    /\ (forall r, In r (relevant_releases releases)
                  <-> In r releases
                      /\ packagetype r
                         = if has_wheel releases then "bdist_wheel" else "sdist")
    /\ (forall k a d,
           Dict.get mapping k = Some a ->
           (In (mkHash a d) (get_hashes releases)
            <-> last_digest k (relevant_releases releases) = Some d))
    /\ (forall h, In h (get_hashes releases) ->
                  exists k, Dict.get mapping k = Some (alg h))
    /\ NoDup (map alg (get_hashes releases))
    /\ (forall A B C : string,
           get_hashes [ mkRelease "sdist" [("sha256", A)];
                        mkRelease "bdist_wheel" [("sha256", B)];
                        mkRelease "bdist_wheel" [("md5", C)] ]
           = [mkHash "SHA-256" B; mkHash "MD5" C]).
Proof.
  intros releases.
  split; [|split; [|split; [|split; [|split]]]].
  - unfold has_wheel. rewrite existsb_exists. split.
    + intros (r & Hr & Heq). apply String.eqb_eq in Heq. eauto.
    + intros (r & Hr & Heq). exists r. rewrite Heq. auto.
  - apply relevant_releases_In.
  - intros k a d Hk. now apply get_hashes_In.
  - intros h Hin.
    destruct (get_hashes_recognized releases h Hin) as (k & r & _ & _ & Hk).
    eauto.
  - apply get_hashes_NoDup.
  - intros A B C. reflexivity.
Qed.

(** ** Version normalizer *)

Section Normalizer.

Variable E : Env.

Lemma _get_pypi_version_first (v : string) (keys : list string) (k : string) :
  _get_pypi_version E v keys = Some k <-> first_such (equivalent_key E v) keys k.
Proof.
  unfold first_such, equivalent_key.
  induction keys as [|k0 keys IH]; simpl.
  - split; [discriminate|]. intros ([|i] & Hi & _); discriminate.
  - destruct (String.eqb_spec v (canonicalize_version E k0)) as [Hc|Hc];
      [|destruct (String.eqb_spec v k0) as [Hr|Hr]]; simpl.
    + split.
      * intros [= <-]. exists 0. split; [reflexivity|]. split; [auto|].
        intros j k' Hj. inversion Hj.
      * intros ([|i] & Hi & Hp & Hfirst).
        -- simpl in Hi. congruence.
        -- exfalso. apply (Hfirst 0 k0); [lia | reflexivity | auto].
    + split.
      * intros [= <-]. exists 0. split; [reflexivity|]. split; [auto|].
        intros j k' Hj. inversion Hj.
      * intros ([|i] & Hi & Hp & Hfirst).
        -- simpl in Hi. congruence.
        -- exfalso. apply (Hfirst 0 k0); [lia | reflexivity | auto].
    + rewrite IH. split.
      * intros (i & Hi & Hp & Hfirst). exists (S i).
        split; [assumption|]. split; [assumption|].
        intros [|j] k' Hj Hk'; simpl in Hk'.
        -- injection Hk' as <-. tauto.
        -- apply (Hfirst j); [lia | assumption].
      * intros ([|i] & Hi & Hp & Hfirst); simpl in Hi.
        -- injection Hi as <-. tauto.
        -- exists i. split; [assumption|]. split; [assumption|].
           intros j k' Hj Hk'. apply (Hfirst (S j)); [lia | assumption].
Qed.

Lemma _get_pypi_version_None (v : string) (keys : list string) :
  _get_pypi_version E v keys = None
  <-> forall k, In k keys -> ~ equivalent_key E v k.
Proof.
  unfold equivalent_key.
  induction keys as [|k0 keys IH]; simpl.
  - split; [intros _ k [] | reflexivity].
  - destruct (String.eqb_spec v (canonicalize_version E k0)) as [Hc|Hc];
      [|destruct (String.eqb_spec v k0) as [Hr|Hr]]; simpl.
    + split; [discriminate|]. intros H. exfalso. apply (H k0); auto.
    + split; [discriminate|]. intros H. exfalso. apply (H k0); auto.
    + rewrite IH. split.
      * intros H k [<-|Hin]; [tauto | now apply H].
      * intros H k Hin. apply H. now right.
Qed.

(** A key of the index that is the requested version is found by the scan,
    unless the scan stops earlier. *)
Lemma _get_pypi_version_verbatim (v : string) (keys : list string) :
  In v keys -> exists k, _get_pypi_version E v keys = Some k /\ In k keys.
Proof.
  induction keys as [|k0 keys IH]; simpl; [tauto|].
  intros Hin.
  destruct (String.eqb v (canonicalize_version E k0) || String.eqb v k0) eqn:Ht.
  - exists k0. auto.
  - destruct Hin as [->|Hin].
    + rewrite String.eqb_refl, orb_true_r in Ht. discriminate.
    + destruct (IH Hin) as (k & Hk & Hk'). eauto.
Qed.

Lemma _get_pypi_version_In (v : string) (keys : list string) (k : string) :
  _get_pypi_version E v keys = Some k -> In k keys.
Proof.
  induction keys as [|k0 keys IH]; simpl; [discriminate|].
  destruct (String.eqb v (canonicalize_version E k0) || String.eqb v k0).
  - intros [= <-]. now left.
  - intros H. right. now apply IH.
Qed.

Lemma releases_item_key (rels : Dict.t (list Release)) (k : string) :
  In k (Dict.keys rels) ->
  exists l, Dict.get rels k = Some l /\ releases_item rels k = ret l.
Proof.
  intros Hin. unfold releases_item.
  destruct (Dict.get rels k) as [l|] eqn:Hg; [eauto|].
  apply DictFacts.get_None in Hg. tauto.
Qed.

End Normalizer.

(** X15 — the release lookup as the code has it.  For a version that is
    not a pre-, post- or development release, the artifact list under the
    verbatim key is returned ([None] when there is no such key).  For a
    special version the keys are scanned in order, and the artifact list of
    the first key whose canonical form is the requested version as written,
    or which is the requested version, is returned; a verbatim key therefore
    always ends the scan, and it is the key returned when no other key
    canonicalizes to the requested string.  When no key passes the test the
    lookup takes its error branch. *)
Theorem get_release_info_normalizer :
  forall (E : Env) (package_info : PackageInfo) (v : string),
    let rels := releases package_info in
    (is_special E v = false ->
     get_release_info E package_info v = ret (Dict.get rels v))
    /\ (is_special E v = true ->
        forall k, first_such (equivalent_key E v) (Dict.keys rels) k ->
                  k <> "" ->
                  exists l, Dict.get rels k = Some l
                            /\ get_release_info E package_info v = ret (Some l))
    /\ (In v (Dict.keys rels) ->
        exists k, first_such (equivalent_key E v) (Dict.keys rels) k)
    /\ (In v (Dict.keys rels) -> v <> "" ->
        (forall k, In k (Dict.keys rels) -> v = canonicalize_version E k -> k = v) ->
        exists l, Dict.get rels v = Some l
                  /\ get_release_info E package_info v = ret (Some l))
    /\ (is_special E v = true ->
        (forall k, In k (Dict.keys rels) -> ~ equivalent_key E v k) ->
        get_release_info E package_info v
        = no_matching_version package_info v).
Proof.
  intros E package_info v rels.
  assert (Hnone : is_special E v = true ->
                  (forall k, In k (Dict.keys rels) -> ~ equivalent_key E v k) ->
                  get_release_info E package_info v
                  = no_matching_version package_info v).
  { intros Hs Hno. apply _get_pypi_version_None in Hno.
    unfold get_release_info. fold rels. now rewrite Hs, Hno. }
  assert (Hscan : is_special E v = true ->
                  forall k, first_such (equivalent_key E v) (Dict.keys rels) k ->
                            k <> "" ->
                            exists l, Dict.get rels k = Some l
                                      /\ get_release_info E package_info v
                                         = ret (Some l)).
  { intros Hs k Hk Hne. unfold get_release_info. fold rels. rewrite Hs.
    pose proof Hk as Hfound. apply _get_pypi_version_first in Hfound.
    rewrite Hfound.
    destruct (String.eqb_spec k "") as [->|_]; [congruence|].
    destruct (releases_item_key rels k) as (l & Hl & Hitem).
    { now apply (_get_pypi_version_In E v). }
    exists l. split; [assumption|]. rewrite Hitem. now rewrite bind_ret_l. }
  assert (Hverb : In v (Dict.keys rels) ->
                  exists k, first_such (equivalent_key E v) (Dict.keys rels) k).
  { intros Hin.
    destruct (_get_pypi_version_verbatim E v (Dict.keys rels) Hin) as (k & Hk & _).
    exists k. now apply _get_pypi_version_first. }
  split; [|split; [exact Hscan | split; [exact Hverb | split; [|exact Hnone]]]].
  - intros Hs. unfold get_release_info. fold rels. now rewrite Hs.
  - intros Hin Hne Hcanon.
    destruct (is_special E v) eqn:Hs.
    + destruct (Hverb Hin) as (k & Hk).
      assert (k = v) as ->.
      { pose proof Hk as (i & Hi & [Hp|Hp] & _).
        - apply Hcanon; [|assumption]. eapply nth_error_In; eassumption.
        - now symmetry. }
      now apply Hscan.
    + destruct (releases_item_key rels v Hin) as (l & Hl & _).
      exists l. split; [assumption|].
      unfold get_release_info. fold rels. now rewrite Hs, Hl.
Qed.

(** C2 — the scan misses an equivalent key.  The function looks for a key
    equivalent to the requested version, but canonicalizes the key only and
    compares it with the requested string as written, and it scans even
    when the requested version is a key.  With the key ["1.0.0-rc1"] alone
    in the index and the requested version ["1.0.0rc1"], the algorithm of
    the claim selects
    ["1.0.0-rc1"], but the scan finds nothing (the canonical form of the key
    is ["1rc1"], which is not the requested string) and the lookup raises.
    With the keys ["1.0.0rc1"] and ["1rc1"] and the requested version
    ["1rc1"], the verbatim key holds the wheel, and the artifact list
    returned is that of the earlier key. *)
Lemma normalizer_counterexample :
  normalize_spec sample_env "1.0.0rc1" (Dict.keys (releases package_b))
  = Some "1.0.0-rc1"
  /\ _get_pypi_version sample_env "1.0.0rc1" (Dict.keys (releases package_b))
     = None
  /\ get_release_info sample_env package_b "1.0.0rc1"
     = ([], Raise (ValueError "Could not find a matching normalized version string"
                     "b" "1.0.0rc1"))
  /\ normalize_spec sample_env "1rc1" (Dict.keys (releases package_c))
     = Some "1rc1"
  /\ Dict.get (releases package_c) "1rc1" = Some [wheel_B]
  /\ get_release_info sample_env package_c "1rc1" = ([], Ret (Some [sdist_A])).
Proof. repeat split. Qed.

(** ** Component resolver *)

Section Resolver.

Variable E : Env.

Lemma pinned_not_skipped (req : Requirement) (op ver : string) :
  pinned req op ver ->
  ~ skip_local_file req /\ ~ skip_no_specifier req /\ ~ skip_malformed req.
Proof.
  intros (Hl & more & rest & Hs). unfold skip_local_file, skip_no_specifier,
    skip_malformed. repeat split.
  - congruence.
  - intros [_ H]. congruence.
  - intros (_ & spec0 & rest' & H & Hlen). rewrite Hs in H.
    injection H as <- _. simpl in Hlen. lia.
Qed.

(** A requirement is skipped for one of the three reasons, or resolved. *)
Lemma requirement_cases (req : Requirement) :
  skip_local_file req \/ skip_no_specifier req \/ skip_malformed req
  \/ exists op ver, pinned req op ver.
Proof.
  unfold skip_local_file, skip_no_specifier, skip_malformed, pinned.
  destruct (req_local_file req); [now left | right].
  destruct (req_specs req) as [|spec0 rest]; [now left | right].
  destruct spec0 as [|op [|ver more]].
  - left. split; [reflexivity|]. exists [], rest. simpl. split; [reflexivity | lia].
  - left. split; [reflexivity|]. exists [op], rest. simpl.
    split; [reflexivity | lia].
  - right. exists op, ver. split; [reflexivity|]. now exists more, rest.
Qed.

(** The resolver on a requirement that is not skipped, step by step. *)
Lemma get_component_pinned (req : Requirement) (op ver url : string) :
  pinned req op ver ->
  get_component E req url =
  ((if negb (String.eqb op "==") then
      print ("WARNING: " ++ req_name req
             ++ " is not pinned to a specific version. Using: " ++ ver)
    else ret tt) ;;;
   package_info <- get_package_info E (req_name req) ver url ;;
   match package_info with
   | Some package_info =>
       let component :=
         with_info E (minimal_component E (req_name req) ver) package_info in
       if Dict.mem ver (releases package_info) then
         release_info <- get_release_info E package_info ver ;;
         match release_info with
         | Some release_info =>
             ret (Some (with_hashes component (sort (get_hashes release_info))))
         | None => raise (TypeError "'NoneType' object is not iterable")
         end
       else
         print (not_found_warning (req_name req) ver) ;;;
         ret (Some component)
   | None => ret (Some (minimal_component E (req_name req) ver))
   end).
Proof.
  intros (Hl & more & rest & Hs). unfold get_component.
  rewrite Hl, Hs. reflexivity.
Qed.

Lemma unpinned_print (op n ver : string) (A : Type) (k : M A) :
  ((if negb (String.eqb op "==") then
      print ("WARNING: " ++ n
             ++ " is not pinned to a specific version. Using: " ++ ver)
    else ret tt) ;;; k)
  = (unpinned_warning op n ver ++ output k, outcome k).
Proof.
  unfold unpinned_warning. destruct k as [out r].
  destruct (negb (String.eqb op "==")); reflexivity.
Qed.

(** Registry unavailable: the component of the requirement alone. *)
Lemma get_component_unavailable (req : Requirement) (op ver url : string) :
  pinned req op ver ->
  requests_get E (url_format E url (req_name req) ver) = RequestException ->
  get_component E req url
  = (unpinned_warning op (req_name req) ver
       ++ [retrieval_warning (req_name req)],
     Ret (Some (minimal_component E (req_name req) ver))).
Proof.
  intros Hp Hr. rewrite (get_component_pinned req op ver url Hp), unpinned_print.
  unfold get_package_info. rewrite Hr. reflexivity.
Qed.

(** Release not found: the metadata without hashes. *)
Lemma get_component_not_found (req : Requirement) (op ver url : string)
    (package_info : PackageInfo) :
  pinned req op ver ->
  requests_get E (url_format E url (req_name req) ver) = Json package_info ->
  Dict.mem ver (releases package_info) = false ->
  get_component E req url
  = (unpinned_warning op (req_name req) ver
       ++ [not_found_warning (req_name req) ver],
     Ret (Some (with_info E (minimal_component E (req_name req) ver)
                  package_info))).
Proof.
  intros Hp Hr Hm. rewrite (get_component_pinned req op ver url Hp), unpinned_print.
  unfold get_package_info. rewrite Hr, bind_ret_l. simpl. rewrite Hm.
  reflexivity.
Qed.

Lemma get_release_info_silent (package_info : PackageInfo) (v : string) :
  output (get_release_info E package_info v) = [].
Proof.
  unfold get_release_info, no_matching_version, package_info_name,
    releases_item.
  destruct (is_special E v); [|reflexivity].
  destruct (_get_pypi_version E v (Dict.keys (releases package_info))) as [k|].
  - destruct (String.eqb k "").
    + now destruct (pkg_name package_info).
    + now destruct (Dict.get (releases package_info) k).
  - now destruct (pkg_name package_info).
Qed.

(** Release key present: the outcome follows that of the release lookup. *)
Lemma get_component_found (req : Requirement) (op ver url : string)
    (package_info : PackageInfo) :
  pinned req op ver ->
  requests_get E (url_format E url (req_name req) ver) = Json package_info ->
  Dict.mem ver (releases package_info) = true ->
  get_component E req url
  = (unpinned_warning op (req_name req) ver,
     match outcome (get_release_info E package_info ver) with
     | Ret (Some release_info) =>
         Ret (Some (with_hashes
                      (with_info E (minimal_component E (req_name req) ver)
                         package_info)
                      (sort (get_hashes release_info))))
     | Ret None => Raise (TypeError "'NoneType' object is not iterable")
     | Raise e => Raise e
     end).
Proof.
  intros Hp Hr Hm. rewrite (get_component_pinned req op ver url Hp), unpinned_print.
  unfold get_package_info. rewrite Hr, bind_ret_l. simpl. rewrite Hm.
  pose proof (get_release_info_silent package_info ver) as Hout.
  destruct (get_release_info E package_info ver) as [out [[l|]|e]];
    simpl in Hout; subst out; simpl; now rewrite ?app_nil_r.
Qed.

(** With the release key present, the scan of a special version ends. *)
Lemma get_release_info_present (package_info : PackageInfo) (v : string) :
  In v (Dict.keys (releases package_info)) ->
  (exists l, outcome (get_release_info E package_info v) = Ret (Some l))
  \/ (is_special E v = true
      /\ _get_pypi_version E v (Dict.keys (releases package_info)) = Some ""
      /\ get_release_info E package_info v
         = no_matching_version package_info v).
Proof.
  intros Hin. unfold get_release_info.
  destruct (is_special E v) eqn:Hs.
  - destruct (_get_pypi_version_verbatim E v _ Hin) as (k & Hk & Hkin).
    rewrite Hk.
    destruct (String.eqb_spec k "") as [->|Hne]; [right; auto|].
    left. destruct (releases_item_key _ k Hkin) as (l & _ & ->).
    exists l. now rewrite bind_ret_l.
  - left. destruct (releases_item_key _ v Hin) as (l & -> & _).
    now exists l.
Qed.

(** An empty key cannot stand for a version that is special. *)
Lemma scan_not_empty (v : string) (keys : list string) :
  empty_is_no_version E -> is_special E v = true ->
  _get_pypi_version E v keys <> Some "".
Proof.
  intros [Hc He] Hs Hk. apply _get_pypi_version_first in Hk.
  destruct Hk as (_ & _ & [Hp|Hp] & _); rewrite ?Hc in Hp; subst v;
    congruence.
Qed.

(** The three early returns of [get_component]. *)
Lemma get_component_skip (req : Requirement) (url : string) :
  skip_local_file req \/ skip_no_specifier req \/ skip_malformed req ->
  outcome (get_component E req url) = Ret None.
Proof.
  intros Hskip. unfold get_component.
  destruct Hskip as [Hl | [[Hl Hs] | (Hl & spec0 & rest & Hs & Hlen)]].
  - unfold skip_local_file in Hl. now rewrite Hl.
  - now rewrite Hl, Hs.
  - rewrite Hl, Hs. apply Nat.ltb_lt in Hlen. now rewrite Hlen.
Qed.

Lemma get_component_skip_warning (req : Requirement) (url : string) :
  skip_local_file req \/ skip_no_specifier req ->
  length (output (get_component E req url)) = 1.
Proof.
  intros Hskip. unfold get_component.
  destruct Hskip as [Hl | [Hl Hs]].
  - unfold skip_local_file in Hl. now rewrite Hl.
  - now rewrite Hl, Hs.
Qed.

End Resolver.

(** ** Sorting the hashes *)

Section Sorting.

Lemma ltb_leb (s1 s2 : string) : String.ltb s1 s2 = true -> String.leb s1 s2 = true.
Proof.
  unfold String.ltb, String.leb. now destruct (String.compare s1 s2).
Qed.

Lemma not_ltb_leb (s1 s2 : string) :
  String.ltb s1 s2 = false -> String.leb s2 s1 = true.
Proof.
  unfold String.ltb, String.leb. rewrite (String.compare_antisym s1 s2).
  now destruct (String.compare s2 s1).
Qed.

Lemma insert_hash_perm (h : Hash) (l : list Hash) :
  Permutation (h :: l) (insert_hash h l).
Proof.
  induction l as [|y l IH]; simpl; [reflexivity|].
  destruct (String.ltb (alg y) (alg h)); [|reflexivity].
  rewrite perm_swap. now constructor.
Qed.

Lemma sort_perm (l : list Hash) : Permutation l (sort l).
Proof.
  induction l as [|h l IH]; simpl; [constructor|].
  rewrite <- insert_hash_perm. now constructor.
Qed.

Lemma insert_hash_sorted (h : Hash) (l : list Hash) :
  sorted_by_alg l -> sorted_by_alg (insert_hash h l).
Proof.
  unfold sorted_by_alg.
  induction l as [|y l IH]; simpl; intros Hs.
  - repeat constructor.
  - destruct (String.ltb (alg y) (alg h)) eqn:Hlt.
    + inversion Hs as [|? ? Hs' Hhd]; subst.
      constructor; [now apply IH|].
      destruct l as [|z l]; simpl.
      * constructor. now apply ltb_leb.
      * destruct (String.ltb (alg z) (alg h)).
        -- inversion Hhd; subst. now constructor.
        -- constructor. now apply ltb_leb.
    + constructor; [assumption|]. constructor. now apply not_ltb_leb.
Qed.

Lemma sort_sorted (l : list Hash) : sorted_by_alg (sort l).
Proof.
  induction l as [|h l IH]; simpl.
  - constructor.
  - now apply insert_hash_sorted.
Qed.

Lemma sort_nil_iff (l : list Hash) : sort l = [] <-> l = [].
Proof.
  split; [|now intros ->].
  intros H. pose proof (sort_perm l) as Hp. rewrite H in Hp.
  now apply Permutation_nil, Permutation_sym.
Qed.

(** The selection is empty exactly when no kept artifact has a digest
    under a recognized algorithm name. *)
Lemma get_hashes_nil_iff (releases : list Release) :
  get_hashes releases = []
  <-> forall r k, In r (relevant_releases releases) ->
                  In k (Dict.keys (digests r)) -> Dict.get mapping k = None.
Proof.
  split.
  - intros Hnil r k Hr Hk.
    destruct (Dict.get mapping k) as [a|] eqn:Hmap; [exfalso | reflexivity].
    destruct (last_digest k (relevant_releases releases)) as [d|] eqn:Hl.
    + apply (get_hashes_In releases k a d Hmap) in Hl.
      rewrite Hnil in Hl. destruct Hl.
    + unfold last_digest in Hl.
      destruct (find (fun r0 => Dict.mem k (digests r0))
                  (rev (relevant_releases releases))) as [r0|] eqn:Hf.
      * apply find_some in Hf as [_ Hm].
        destruct (mem_get_Some k _ Hm) as [d Hd]. congruence.
      * assert (Hm : Dict.mem k (digests r) = false).
        { apply (find_none _ _ Hf r). now apply in_rev in Hr. }
        apply DictFacts.mem_In in Hk. congruence.
  - intros Hnone.
    destruct (get_hashes releases) as [|h l] eqn:Hg; [reflexivity | exfalso].
    destruct (get_hashes_recognized releases h) as (k & r & Hr & Hk & Hmap).
    { rewrite Hg. now left. }
    rewrite (Hnone r k Hr Hk) in Hmap. discriminate.
Qed.

End Sorting.

(** ** Outcomes of the resolver *)

Section ResolverOutcome.

Variable E : Env.

(** [get_component] returns, unless the scan for a special version stops
    at an empty key. *)
Lemma get_component_outcome (req : Requirement) (url : string) :
  (exists oc, outcome (get_component E req url) = Ret oc)
  \/ (exists op ver package_info,
         pinned req op ver
         /\ requests_get E (url_format E url (req_name req) ver)
            = Json package_info
         /\ is_special E ver = true
         /\ _get_pypi_version E ver (Dict.keys (releases package_info))
            = Some ""
         /\ outcome (get_component E req url)
            = match pkg_name package_info with
              | Some n =>
                  Raise (ValueError
                           "Could not find a matching normalized version string"
                           n ver)
              | None => Raise (KeyError "name")
              end).
Proof.
  destruct (requirement_cases req) as [H|[H|[H|(op & ver & Hp)]]].
  - left. exists None. apply get_component_skip; auto.
  - left. exists None. apply get_component_skip; auto.
  - left. exists None. apply get_component_skip; auto.
  - destruct (requests_get E (url_format E url (req_name req) ver))
      as [|package_info] eqn:Hr.
    + left. rewrite (get_component_unavailable E req op ver url Hp Hr).
      simpl. eauto.
    + destruct (Dict.mem ver (releases package_info)) eqn:Hm.
      * rewrite (get_component_found E req op ver url package_info Hp Hr Hm).
        apply DictFacts.mem_In in Hm.
        destruct (get_release_info_present E package_info ver Hm)
          as [[l Hl] | (Hs & Hk & Hraise)].
        -- left. simpl. rewrite Hl. eauto.
        -- right. exists op, ver, package_info.
           repeat (split; [assumption|]).
           simpl. rewrite Hraise. unfold no_matching_version, package_info_name.
           now destruct (pkg_name package_info).
      * left.
        rewrite (get_component_not_found E req op ver url package_info Hp Hr Hm).
        simpl. eauto.
Qed.

Lemma get_component_returns (req : Requirement) (url : string) :
  empty_is_no_version E ->
  exists oc, outcome (get_component E req url) = Ret oc.
Proof.
  intros Hempty.
  destruct (get_component_outcome req url)
    as [H | (op & ver & package_info & _ & _ & Hs & Hk & _)];
    [assumption|].
  exfalso. now apply (scan_not_empty E ver _ Hempty Hs Hk).
Qed.

End ResolverOutcome.

(** ** The resolver on failures *)

(** C1 — a special version without a matching release key.  When the
    registry answers, the version of the requirement is a pre-, post- or
    development release and the scan of the release keys finds no match,
    [get_component] raises nothing: it prints the "could not be found"
    warning and returns the component with the metadata obtained (name,
    version, identifier, type, publisher, description, declared
    requirements, license) and no hashes. *)
Theorem special_version_without_match :
  forall (E : Env) (req : Requirement) (op ver url : string)
         (package_info : PackageInfo),
    pinned req op ver ->
    requests_get E (url_format E url (req_name req) ver) = Json package_info ->
    is_special E ver = true ->
    _get_pypi_version E ver (Dict.keys (releases package_info)) = None ->
    exists c,
      get_component E req url
      = (unpinned_warning op (req_name req) ver
           ++ [not_found_warning (req_name req) ver],
         Ret (Some c))
      /\ name c = req_name req
      /\ version c = ver
      /\ purl c = generate_purl E (req_name req) ver
      /\ component_type c = "library"
      /\ publisher c = author (info package_info)
      /\ description c = summary (info package_info)
      /\ requires_dist c = info_requires_dist (info package_info)
      /\ licenses c = license_of E (info_license (info package_info))
      /\ hashes c = [].
Proof.
  intros E req op ver url package_info Hp Hr _ Hscan.
  assert (Hm : Dict.mem ver (releases package_info) = false).
  { destruct (Dict.mem ver (releases package_info)) eqn:Hm; [|reflexivity].
    apply DictFacts.mem_In in Hm.
    destruct (_get_pypi_version_verbatim E ver _ Hm) as (k & Hk & _).
    congruence. }
  eexists. split.
  - now apply (get_component_not_found E req op ver url package_info).
  - repeat split.
Qed.

Lemma special_version_without_match_witness :
  exists c,
    get_component sample_env req_b "u"
    = (unpinned_warning "==" (req_name req_b) "1.0.0rc1"
         ++ [not_found_warning (req_name req_b) "1.0.0rc1"],
       Ret (Some c))
    /\ name c = req_name req_b
    /\ version c = "1.0.0rc1"
    /\ purl c = generate_purl sample_env (req_name req_b) "1.0.0rc1"
    /\ component_type c = "library"
    /\ publisher c = author (info package_b)
    /\ description c = summary (info package_b)
    /\ requires_dist c = info_requires_dist (info package_b)
    /\ licenses c = license_of sample_env (info_license (info package_b))
    /\ hashes c = [].
Proof.
  apply (special_version_without_match sample_env req_b "==" "1.0.0rc1" "u"
           package_b).
  - split; [reflexivity|]. now exists [], [].
  - reflexivity.
  - reflexivity.
  - reflexivity.
Defined.

(** C6 — registry transport failure.  For a requirement that reaches the
    lookup, a [RequestException] makes [get_package_info] print one warning
    and return [None] instead of raising, and [get_component] returns the
    component that has the name, the version, the identifier and the type
    of the requirement and nothing else. *)
Theorem transport_failure_degrades :
  forall (E : Env) (req : Requirement) (op ver url : string),
    pinned req op ver ->
    requests_get E (url_format E url (req_name req) ver) = RequestException ->
    get_package_info E (req_name req) ver url
    = ([retrieval_warning (req_name req)], Ret None)
    /\ length (output (get_package_info E (req_name req) ver url)) <= 1
    /\ exists c,
         get_component E req url
         = (unpinned_warning op (req_name req) ver
              ++ [retrieval_warning (req_name req)],
            Ret (Some c))
         /\ name c = req_name req
         /\ version c = ver
         /\ purl c = generate_purl E (req_name req) ver
         /\ component_type c = "library"
         /\ publisher c = None
         /\ description c = None
         /\ requires_dist c = None
         /\ licenses c = []
         /\ hashes c = [].
Proof.
  intros E req op ver url Hp Hr.
  assert (Hinfo : get_package_info E (req_name req) ver url
                  = ([retrieval_warning (req_name req)], Ret None)).
  { unfold get_package_info. now rewrite Hr. }
  split; [exact Hinfo|]. split.
  - rewrite Hinfo. simpl. lia.
  - eexists. split.
    + now apply (get_component_unavailable E req op ver url).
    + repeat split.
Qed.

Lemma transport_failure_degrades_witness :
  get_package_info sample_env (req_name req_x) "3" "u"
  = ([retrieval_warning (req_name req_x)], Ret None)
  /\ length (output (get_package_info sample_env (req_name req_x) "3" "u")) <= 1
  /\ exists c,
       get_component sample_env req_x "u"
       = (unpinned_warning ">=" (req_name req_x) "3"
            ++ [retrieval_warning (req_name req_x)],
          Ret (Some c))
       /\ name c = req_name req_x
       /\ version c = "3"
       /\ purl c = generate_purl sample_env (req_name req_x) "3"
       /\ component_type c = "library"
       /\ publisher c = None
       /\ description c = None
       /\ requires_dist c = None
       /\ licenses c = []
       /\ hashes c = [].
Proof.
  apply (transport_failure_degrades sample_env req_x ">=" "3" "u").
  - split; [reflexivity|]. now exists [], [].
  - reflexivity.
Defined.

(** Skipped requirements with a name.  A requirement that is a local file, has no
    version specifier, or has a specifier of fewer than two tokens yields
    no component; for a local file and for a missing specifier exactly one
    warning is printed. *)
Theorem skipped_requirement :
  forall (E : Env) (req : Requirement) (url : string),
    skip_local_file req \/ skip_no_specifier req \/ skip_malformed req ->
    outcome (get_component E req url) = Ret None
    /\ (skip_local_file req \/ skip_no_specifier req ->
        length (output (get_component E req url)) = 1).
Proof.
  intros E req url Hskip. split.
  - now apply get_component_skip.
  - intros Hwarned. now apply get_component_skip_warning.
Qed.

Lemma skipped_requirement_witness :
  outcome (get_component sample_env req_file "u") = Ret None
  /\ (skip_local_file req_file \/ skip_no_specifier req_file ->
      length (output (get_component sample_env req_file "u")) = 1).
Proof.
  apply (skipped_requirement sample_env req_file "u").
  left. reflexivity.
Defined.

(** The guard for a first specifier of fewer than two tokens drops the
    requirement and prints nothing. *)
Lemma skipped_malformed_counterexample :
  skip_malformed req_malformed
  /\ get_component sample_env req_malformed "u" = ([], Ret None)
  /\ length (output (get_component sample_env req_malformed "u")) <> 1.
Proof.
  split; [|split].
  - split; [reflexivity|]. exists ["=="], []. simpl. split; [reflexivity | lia].
  - reflexivity.
  - simpl. lia.
Qed.

(** C8 — exact pin with a release key.  For a requirement pinned with [==]
    whose lookup succeeds and whose version is a release key, the component
    returned carries the publisher and the description of the metadata, and
    its hashes are the selection from the artifact list that the release
    lookup returns, sorted by algorithm name; the hash list is not empty
    exactly when a kept artifact of that list has a digest under a
    recognized algorithm name. *)
Theorem exact_pin_with_release :
  forall (E : Env) (req : Requirement) (ver url : string)
         (package_info : PackageInfo),
    empty_is_no_version E ->
    pinned req "==" ver ->
    requests_get E (url_format E url (req_name req) ver) = Json package_info ->
    In ver (Dict.keys (releases package_info)) ->
    exists c release_info,
      get_component E req url = ([], Ret (Some c))
      /\ get_release_info E package_info ver = ret (Some release_info)
      /\ hashes c = sort (get_hashes release_info)
      /\ sorted_by_alg (hashes c)
      /\ Permutation (get_hashes release_info) (hashes c)
      /\ publisher c = author (info package_info)
      /\ description c = summary (info package_info)
      /\ (hashes c <> []
          <-> exists r k, In r (relevant_releases release_info)
                          /\ In k (Dict.keys (digests r))
                          /\ Dict.get mapping k <> None).
Proof.
  intros E req ver url package_info Hempty Hp Hr Hin.
  pose proof (get_release_info_silent E package_info ver) as Hout.
  destruct (get_release_info_present E package_info ver Hin)
    as [[l Hl] | (Hs & Hk & _)].
  2:{ exfalso. now apply (scan_not_empty E ver _ Hempty Hs Hk). }
  exists (with_hashes (with_info E (minimal_component E (req_name req) ver)
                         package_info)
            (sort (get_hashes l))), l.
  split; [|split; [|split; [|split; [|split; [|split; [|split]]]]]].
  - rewrite (get_component_found E req "==" ver url package_info Hp Hr).
    + now rewrite Hl.
    + now apply DictFacts.mem_In.
  - destruct (get_release_info E package_info ver) as [out r].
    simpl in Hout, Hl. now subst.
  - reflexivity.
  - apply sort_sorted.
  - apply sort_perm.
  - reflexivity.
  - reflexivity.
  - unfold with_hashes. cbn [hashes].
    rewrite sort_nil_iff, get_hashes_nil_iff. split.
    + intros Hne.
      destruct (get_hashes l) as [|h t] eqn:Hg.
      * exfalso. apply Hne. now apply get_hashes_nil_iff.
      * destruct (get_hashes_recognized l h) as (k & r & Hrr & Hkk & Hmap).
        { rewrite Hg. now left. }
        exists r, k. split; [assumption|]. split; [assumption|].
        rewrite Hmap. discriminate.
    + intros (r & k & Hrr & Hkk & Hmap) Hnone. apply Hmap. now apply (Hnone r).
Qed.

Lemma exact_pin_with_release_witness :
  exists c release_info,
    get_component sample_env req_a "u" = ([], Ret (Some c))
    /\ get_release_info sample_env package_a "1.0" = ret (Some release_info)
    /\ hashes c = sort (get_hashes release_info)
    /\ sorted_by_alg (hashes c)
    /\ Permutation (get_hashes release_info) (hashes c)
    /\ publisher c = author (info package_a)
    /\ description c = summary (info package_a)
    /\ (hashes c <> []
        <-> exists r k, In r (relevant_releases release_info)
                        /\ In k (Dict.keys (digests r))
                        /\ Dict.get mapping k <> None).
Proof.
  apply (exact_pin_with_release sample_env req_a "1.0" "u" package_a).
  - split; reflexivity.
  - split; [reflexivity|]. now exists [], [].
  - reflexivity.
  - simpl. auto.
Defined.

(** C8, as stated, fails: release ["0.9"] of the sample package has no
    files, and the component of the requirement pinned to it has no hash. *)
Lemma exact_pin_empty_hashes_counterexample :
  pinned req_a_old "==" "0.9"
  /\ requests_get sample_env (url_format sample_env "u" (req_name req_a_old) "0.9")
     = Json package_a
  /\ In "0.9" (Dict.keys (releases package_a))
  /\ exists c, get_component sample_env req_a_old "u" = ([], Ret (Some c))
               /\ hashes c = [].
Proof.
  split; [|split; [|split]].
  - split; [reflexivity|]. now exists [], [].
  - reflexivity.
  - simpl. auto.
  - eexists. split; reflexivity.
Qed.


(** ** Deduplication *)

Section Deduplication.

Lemma first_such_cons {A : Type} (p : A -> Prop) (x y : A) (l : list A) :
  first_such p (x :: l) y <-> (x = y /\ p x) \/ (~ p x /\ first_such p l y).
Proof.
  unfold first_such. split.
  - intros ([|i] & Hi & Hp & Hfirst); simpl in Hi.
    + injection Hi as ->. now left.
    + right. split.
      * apply (Hfirst 0 x); [lia | reflexivity].
      * exists i. repeat split; try assumption.
        intros j z Hj Hz. apply (Hfirst (S j) z); [lia | assumption].
  - intros [[-> Hp] | [Hnp (i & Hi & Hp & Hfirst)]].
    + exists 0. repeat split; try assumption. intros j z Hj. lia.
    + exists (S i). repeat split; try assumption.
      intros [|j] z Hj Hz; simpl in Hz.
      * now injection Hz as <-.
      * apply (Hfirst j z); [lia | assumption].
Qed.

Lemma first_such_nil {A : Type} (p : A -> Prop) (y : A) : ~ first_such p [] y.
Proof. intros ([|i] & Hi & _); discriminate. Qed.

Lemma first_such_In {A : Type} (p : A -> Prop) (l : list A) (y : A) :
  first_such p l y -> In y l /\ p y.
Proof.
  intros (i & Hi & Hp & _). split; [|assumption].
  eapply nth_error_In; eassumption.
Qed.

Lemma first_such_exists {A : Type} (p : A -> Prop) (l : list A) (x : A) :
  (forall y, p y \/ ~ p y) -> In x l -> p x -> exists y, first_such p l y.
Proof.
  intros Hdec. induction l as [|z l IH]; simpl; [tauto|].
  intros Hin Hp. destruct (Hdec z) as [Hz|Hz].
  - exists z. apply first_such_cons. now left.
  - destruct Hin as [->|Hin]; [tauto|].
    destruct (IH Hin Hp) as [y Hy]. exists y. apply first_such_cons. now right.
Qed.

Lemma find_first_such {A : Type} (pb : A -> bool) (l : list A) (x : A) :
  find pb l = Some x <-> first_such (fun y => pb y = true) l x.
Proof.
  induction l as [|z l IH]; simpl.
  - split; [discriminate | intros H; now apply first_such_nil in H].
  - rewrite first_such_cons. destruct (pb z) eqn:Hz.
    + split.
      * intros [= ->]. now left.
      * intros [[-> _] | [Hn _]]; [reflexivity | congruence].
    + rewrite IH. split.
      * intros H. right. split; [congruence | assumption].
      * intros [[-> Hn] | [_ H]]; [congruence | assumption].
Qed.

Lemma existsb_purl (p : string) (l : list Component) :
  existsb (String.eqb p) (map purl l) = true <-> In p (map purl l).
Proof.
  rewrite existsb_exists. split.
  - intros (q & Hq & Heq). apply String.eqb_eq in Heq. now subst.
  - intros H. exists p. split; [assumption | apply String.eqb_refl].
Qed.

Lemma NoDup_purl_inj (l : list Component) (c d : Component) :
  NoDup (map purl l) -> In c l -> In d l -> purl c = purl d -> c = d.
Proof.
  induction l as [|x l IH]; simpl; [tauto|].
  intros Hnd Hc Hd Heq. inversion Hnd as [|? ? Hnotin Hnd']; subst.
  destruct Hc as [->|Hc], Hd as [->|Hd].
  - reflexivity.
  - exfalso. apply Hnotin. rewrite Heq. now apply in_map.
  - exfalso. apply Hnotin. rewrite <- Heq. now apply in_map.
  - now apply IH.
Qed.

(** The loop keeps what it has, and adds the first component of each
    identifier that it has not yet. *)
Lemma deduplicate_spec (all : list (option Component)) :
  forall components : list Component,
    NoDup (map purl components) ->
    exists added,
      deduplicate all components (map purl components) = components ++ added
      /\ NoDup (map purl (components ++ added))
      /\ subsequence added (yielded all)
      /\ forall c, In c added
                   <-> first_with_purl (yielded all) c
                       /\ ~ In (purl c) (map purl components).
Proof.
  unfold first_with_purl.
  induction all as [|[c0|] rest IH]; intros components Hnd; simpl.
  - exists []. rewrite app_nil_r.
    split; [reflexivity|]. split; [assumption|]. split; [constructor|].
    intros c. split; [intros [] | intros [H _]].
    now apply first_such_nil in H.
  - destruct (existsb (String.eqb (purl c0)) (map purl components)) eqn:Hseen;
      simpl.
    + apply existsb_purl in Hseen.
      destruct (IH components Hnd) as (added & Heq & Hnd' & Hsub & Hin).
      exists added.
      split; [assumption|]. split; [assumption|].
      split; [now constructor|].
      intros c. rewrite Hin, first_such_cons. split.
      * intros [Hf Hn]. split; [|assumption]. right. split; [|assumption].
        intros Hp. apply Hn. now rewrite <- Hp.
      * intros [[[-> _] | [_ Hf]] Hn]; [tauto | auto].
    + assert (Hnew : ~ In (purl c0) (map purl components)).
      { intros H. apply existsb_purl in H. congruence. }
      assert (Hnd1 : NoDup (map purl (components ++ [c0]))).
      { rewrite map_app. apply NoDup_app;
          [assumption | repeat constructor; simpl; tauto |].
        intros x Hx [<-|[]]. tauto. }
      destruct (IH (components ++ [c0]) Hnd1)
        as (added & Heq & Hnd' & Hsub & Hin).
      rewrite map_app in Heq. simpl in Heq.
      rewrite <- app_assoc in Heq, Hnd'. simpl in Heq, Hnd'.
      exists (c0 :: added).
      split; [assumption|]. split; [assumption|].
      split; [now constructor|].
      intros c. rewrite first_such_cons. simpl. rewrite Hin.
      rewrite map_app, in_app_iff. simpl. split.
      * intros [<- | [Hf Hn]]; [tauto|].
        split; [|tauto]. right. split; [|assumption].
        intros Hp. apply Hn. auto.
      * intros [[[-> _] | [Hne Hf]] Hn]; [now left | right].
        split; [assumption|]. intros [H|[H|[]]]; [tauto|]. now apply Hne.
  - destruct (IH components Hnd) as (added & Heq & Hnd' & Hsub & Hin).
    exists added. auto.
Qed.

Variable E : Env.

(** The loop over the generator is the loop over its values. *)
Lemma collect_components_deduplicate (url : string) (reqs : list Requirement) :
  forall (all : list (option Component)) (components : list Component)
         (added_purls : list string),
    all_components E reqs url = Some all ->
    outcome (collect_components E reqs url components added_purls)
    = Ret (deduplicate all components added_purls).
Proof.
  induction reqs as [|req rest IH]; intros all components added_purls;
    cbn [collect_components all_components].
  - now intros [= <-].
  - destruct (get_component E req url) as [out [oc|e]];
      cbn [outcome snd]; [|discriminate].
    destruct (all_components E rest url) as [l|] eqn:Hrest; [|discriminate].
    intros [= <-]. rewrite bind_Ret. cbn [outcome snd deduplicate].
    destruct oc as [c|].
    + destruct (existsb (String.eqb (purl c)) added_purls); cbn [negb];
        now apply IH.
    + now apply IH.
Qed.

Lemma collect_components_Ret (url : string) (reqs : list Requirement) :
  forall (components result : list Component) (added_purls : list string),
    outcome (collect_components E reqs url components added_purls) = Ret result ->
    exists all, all_components E reqs url = Some all.
Proof.
  induction reqs as [|req rest IH]; intros components result added_purls;
    cbn [collect_components all_components].
  - eauto.
  - destruct (get_component E req url) as [out [oc|e]];
      cbn [outcome snd]; [|discriminate].
    rewrite bind_Ret. cbn [outcome snd]. intros H.
    assert (Hrest : exists all, all_components E rest url = Some all).
    { destruct oc as [c|];
        [destruct (existsb (String.eqb (purl c)) added_purls)|];
        cbn [negb] in H; eapply IH; eassumption. }
    destruct Hrest as [all ->]. eauto.
Qed.

Lemma all_components_total (url : string) (reqs : list Requirement) :
  empty_is_no_version E -> exists all, all_components E reqs url = Some all.
Proof.
  intros Hempty. induction reqs as [|req rest [all IH]]; simpl; [eauto|].
  destruct (get_component_returns E req url Hempty) as [oc ->].
  rewrite IH. eauto.
Qed.

End Deduplication.

(** ** Dependency graph *)

Section DependencyGraph.

Variable E : Env.

Lemma filter_head_find {A : Type} (p : A -> bool) (l : list A) :
  match filter p l with x :: _ => Some x | [] => None end = find p l.
Proof.
  induction l as [|x l IH]; simpl; [reflexivity|].
  now destruct (p x).
Qed.

(** One step of the loop of [get_dependency] adds the target of [req]. *)
Lemma get_dependency_step (components : list Component) (d : Dependency)
    (req : string) :
  match filter (fun c => String.eqb (name c) (requirement_name E req))
          components with
  | c0 :: _ => mkDependency (ref d) (depends_on d ++ [purl c0])
  | [] => d
  end
  = mkDependency (ref d) (depends_on d ++ target_of E components req).
Proof.
  unfold target_of. rewrite <- filter_head_find.
  destruct (filter _ components); [|reflexivity].
  rewrite app_nil_r. now destruct d.
Qed.

Lemma get_dependency_loop (components : list Component) (reqs : list string) :
  forall d : Dependency,
    fold_left
      (fun dependency req =>
         match filter (fun c => String.eqb (name c) (requirement_name E req))
                 components with
         | c0 :: _ =>
             mkDependency (ref dependency) (depends_on dependency ++ [purl c0])
         | [] => dependency
         end)
      reqs d
    = mkDependency (ref d)
        (depends_on d ++ flat_map (target_of E components) reqs).
Proof.
  induction reqs as [|req reqs IH]; intros d; simpl.
  - rewrite app_nil_r. now destruct d.
  - rewrite get_dependency_step, IH. simpl. now rewrite <- app_assoc.
Qed.

Lemma get_dependency_eq (components : list Component) (c : Component) :
  get_dependency E components c
  = mkDependency (purl c) (flat_map (target_of E components) (declared c)).
Proof.
  unfold get_dependency, declared.
  destruct (requires_dist c) as [[|req reqs]|]; try reflexivity.
  now rewrite get_dependency_loop.
Qed.

Lemma collect_dependencies_map (components : list Component) :
  collect_dependencies E components
  = map (get_dependency E components) components.
Proof.
  unfold collect_dependencies.
  assert (H : forall l acc,
             fold_left (fun dependencies component =>
                          dependencies ++ [get_dependency E components component])
               l acc
             = acc ++ map (get_dependency E components) l).
  { induction l as [|x l IH]; intros acc; simpl.
    - now rewrite app_nil_r.
    - rewrite IH. now rewrite <- app_assoc. }
  apply (H components []).
Qed.

(** The target of a requirement string: the identifier of the first
    component with the parsed name, nothing when there is none. *)
Lemma target_of_cases (components : list Component) (req : string) :
  (exists c0,
      first_such (fun x => name x = requirement_name E req) components c0
      /\ target_of E components req = [purl c0])
  \/ ((forall x, In x components -> name x <> requirement_name E req)
      /\ target_of E components req = []).
Proof.
  unfold target_of.
  destruct (find (fun c => String.eqb (name c) (requirement_name E req))
              components) as [c0|] eqn:Hf.
  - left. exists c0. split; [|reflexivity].
    apply find_first_such in Hf.
    destruct Hf as (i & Hi & Hp & Hfirst). exists i.
    split; [assumption|]. split; [now apply String.eqb_eq|].
    intros j y Hj Hy Hn. apply (Hfirst j y Hj Hy). now apply String.eqb_eq.
  - right. split; [|reflexivity].
    intros x Hx Hn. apply (find_none _ _ Hf) in Hx.
    apply String.eqb_eq in Hn. congruence.
Qed.

Lemma target_of_In (components : list Component) (req p : string) :
  In p (target_of E components req) -> In p (map purl components).
Proof.
  unfold target_of.
  destruct (find (fun c => String.eqb (name c) (requirement_name E req))
              components) as [c0|] eqn:Hf; [|intros []].
  intros [<-|[]]. apply find_some in Hf as [Hin _]. now apply in_map.
Qed.

(** What [read_bom] hands to the generator, when it gets that far. *)
Lemma read_bom_lists_Ret (fd : list Requirement) (url : string)
    (components : list Component) (dependencies : list Dependency) :
  outcome (read_bom_lists E fd url) = Ret (components, dependencies) ->
  outcome (collect_components E fd url [] []) = Ret components
  /\ dependencies = collect_dependencies E components.
Proof.
  unfold read_bom_lists, print. rewrite bind_Ret. cbn [outcome snd].
  destruct (collect_components E fd url [] []) as [out [l|e]].
  - rewrite bind_Ret. cbn [outcome snd ret]. intros [= <- <-]. auto.
  - cbn. discriminate.
Qed.

Lemma read_bom_lists_all (fd : list Requirement) (url : string)
    (all : list (option Component)) :
  all_components E fd url = Some all ->
  outcome (read_bom_lists E fd url)
  = Ret (deduplicate all [] [],
         collect_dependencies E (deduplicate all [] [])).
Proof.
  intros Hall.
  pose proof (collect_components_deduplicate E url fd all [] [] Hall) as Hc.
  unfold read_bom_lists, print. rewrite bind_Ret. cbn [outcome snd].
  destruct (collect_components E fd url [] []) as [out r].
  cbn [outcome snd] in Hc. subst r. rewrite bind_Ret. reflexivity.
Qed.

End DependencyGraph.

(** ** The lists of [read_bom] *)

(** C4 — identifier uniqueness, first occurrence kept.  When every
    requirement of the manifest is resolved without an exception,
    [read_bom] reaches the generator with a component list in which no
    identifier occurs twice; the list is a subsequence of the components
    yielded, in their order; it holds exactly the components that are the
    first with their identifier; so for every yielded component there is one
    component with its identifier in the list, the first one yielded. *)
Theorem read_bom_unique_identifiers :
  forall (E : Env) (fd : list Requirement) (url : string)
         (all : list (option Component)),
    all_components E fd url = Some all ->
    exists components dependencies,
      outcome (read_bom_lists E fd url) = Ret (components, dependencies)
      /\ NoDup (map purl components)
      /\ subsequence components (yielded all)
      /\ (forall c, In c components <-> first_with_purl (yielded all) c)
      /\ (forall c', In c' (yielded all) ->
                     exists c, In c components
                               /\ purl c = purl c'
                               /\ first_with_purl (yielded all) c
                               /\ forall d, In d components ->
                                            purl d = purl c' -> d = c).
Proof.
  intros E fd url all Hall.
  exists (deduplicate all [] []), (collect_dependencies E (deduplicate all [] [])).
  split; [now apply read_bom_lists_all|].
  destruct (deduplicate_spec all [] (NoDup_nil _))
    as (added & Heq & Hnd & Hsub & Hin).
  simpl in Heq, Hnd. rewrite Heq.
  assert (Hiff : forall c, In c added <-> first_with_purl (yielded all) c).
  { intros c. rewrite Hin. simpl. tauto. }
  split; [assumption|]. split; [assumption|]. split; [assumption|].
  intros c' Hc'.
  destruct (first_such_exists (fun x => purl x = purl c') (yielded all) c')
    as [c Hc]; [|assumption|reflexivity|].
  { intros y. destruct (string_dec (purl y) (purl c')); auto. }
  pose proof (first_such_In _ _ _ Hc) as [_ Hp].
  assert (Hfirst : first_with_purl (yielded all) c).
  { unfold first_with_purl. now rewrite Hp. }
  exists c. split; [now apply Hiff|]. split; [assumption|].
  split; [assumption|].
  intros d Hd Hpd. apply (NoDup_purl_inj added); try assumption.
  - now apply Hiff.
  - congruence.
Qed.

Lemma read_bom_unique_identifiers_witness :
  exists components dependencies,
    outcome (read_bom_lists sample_env [req_a; req_file; req_a; req_b; req_x] "u")
    = Ret (components, dependencies)
    /\ NoDup (map purl components)
    /\ length components = 3.
Proof.
  destruct (read_bom_unique_identifiers sample_env
              [req_a; req_file; req_a; req_b; req_x] "u" _ eq_refl)
    as (components & dependencies & Hout & Hnd & Hsub & _).
  exists components, dependencies.
  split; [exact Hout|]. split; [exact Hnd|].
  injection Hout as <- _. reflexivity.
Defined.

(** When the empty string is not a version, [read_bom] always reaches the
    generator. *)
Lemma read_bom_lists_returns (E : Env) (fd : list Requirement) (url : string) :
  empty_is_no_version E ->
  exists components dependencies,
    outcome (read_bom_lists E fd url) = Ret (components, dependencies).
Proof.
  intros Hempty. destruct (all_components_total E url fd Hempty) as [all Hall].
  rewrite (read_bom_lists_all E fd url all Hall). eauto.
Qed.

(** C5 — dependency graph builder.  The second loop of [read_bom] makes one
    record per component, in order, whether or not the record has targets;
    the record of a component refers to its identifier, and its targets
    are, for each declared requirement string in order, the identifier of
    the first component of the list whose name is the parsed name, and
    nothing when no component has that name. *)
Theorem dependency_records :
  forall (E : Env) (components : list Component),
    collect_dependencies E components
    = map (get_dependency E components) components
    /\ length (collect_dependencies E components) = length components
    /\ (forall c,
           ref (get_dependency E components c) = purl c
           /\ depends_on (get_dependency E components c)
              = flat_map (target_of E components) (declared c))
    /\ (forall req,
           (exists c0,
               first_such (fun x => name x = requirement_name E req)
                 components c0
               /\ target_of E components req = [purl c0])
           \/ ((forall x, In x components -> name x <> requirement_name E req)
               /\ target_of E components req = []))
    /\ (forall c, declared c = [] ->
                  get_dependency E components c = mkDependency (purl c) []).
Proof.
  intros E components.
  split; [apply collect_dependencies_map|].
  split; [rewrite collect_dependencies_map; apply length_map|].
  split; [|split].
  - intros c. now rewrite get_dependency_eq.
  - intros req. apply target_of_cases.
  - intros c Hc. now rewrite get_dependency_eq, Hc.
Qed.

(** C10 — no dangling reference.  In the lists that [read_bom] hands to the
    generator there is one dependency record per component, in the order of
    the components and referring to the identifier of its component, and
    every target of a record is the identifier of a component of the list. *)
Theorem no_dangling_references :
  forall (E : Env) (fd : list Requirement) (url : string)
         (components : list Component) (dependencies : list Dependency),
    outcome (read_bom_lists E fd url) = Ret (components, dependencies) ->
    length dependencies = length components
    /\ map ref dependencies = map purl components
    /\ (forall d p, In d dependencies -> In p (depends_on d) ->
                    exists c, In c components /\ purl c = p).
Proof.
  intros E fd url components dependencies Hout.
  apply read_bom_lists_Ret in Hout as [_ ->].
  rewrite collect_dependencies_map.
  split; [apply length_map|]. split.
  - rewrite map_map. apply map_ext. intros c. now rewrite get_dependency_eq.
  - intros d p Hd Hp. apply in_map_iff in Hd as (c & <- & _).
    rewrite get_dependency_eq in Hp. simpl in Hp.
    apply in_flat_map in Hp as (req & _ & Hp).
    apply target_of_In in Hp. apply in_map_iff in Hp as (c0 & Hc0 & Hin).
    eauto.
Qed.

Lemma no_dangling_references_witness :
  exists components dependencies,
    outcome (read_bom_lists sample_env [req_a; req_b; req_x; req_a_old] "u")
    = Ret (components, dependencies)
    /\ length dependencies = length components
    /\ map ref dependencies = map purl components
    /\ (forall d p, In d dependencies -> In p (depends_on d) ->
                    exists c, In c components /\ purl c = p).
Proof.
  eexists. eexists. split; [reflexivity|].
  apply (no_dangling_references sample_env [req_a; req_b; req_x; req_a_old] "u").
  reflexivity.
Defined.

(** * Further properties of [reader.py] *)

(** ** What a returned component is made of *)

Section ReturnedComponent.

Variable E : Env.

(** The three ways in which [get_component] returns a component. *)
Lemma get_component_Ret_cases (req : Requirement) (url : string) (c : Component) :
  outcome (get_component E req url) = Ret (Some c) ->
  exists op ver,
    pinned req op ver
    /\ ((requests_get E (url_format E url (req_name req) ver) = RequestException
         /\ c = minimal_component E (req_name req) ver)
        \/ (exists package_info,
               requests_get E (url_format E url (req_name req) ver)
               = Json package_info
               /\ Dict.mem ver (releases package_info) = false
               /\ c = with_info E (minimal_component E (req_name req) ver)
                        package_info)
        \/ (exists package_info release_info,
               requests_get E (url_format E url (req_name req) ver)
               = Json package_info
               /\ Dict.mem ver (releases package_info) = true
               /\ outcome (get_release_info E package_info ver)
                  = Ret (Some release_info)
               /\ c = with_hashes
                        (with_info E (minimal_component E (req_name req) ver)
                           package_info)
                        (sort (get_hashes release_info)))).
Proof.
  intros Hout.
  destruct (requirement_cases req) as [H|[H|[H|(op & ver & Hp)]]];
    try (rewrite (get_component_skip E req url) in Hout;
         [discriminate | solve [auto]]).
  exists op, ver. split; [assumption|].
  destruct (requests_get E (url_format E url (req_name req) ver))
    as [|package_info] eqn:Hr.
  - left. split; [reflexivity|].
    rewrite (get_component_unavailable E req op ver url Hp Hr) in Hout.
    cbn [outcome snd] in Hout. congruence.
  - right. destruct (Dict.mem ver (releases package_info)) eqn:Hm.
    + right.
      rewrite (get_component_found E req op ver url package_info Hp Hr Hm)
        in Hout.
      cbn [outcome snd] in Hout.
      destruct (outcome (get_release_info E package_info ver))
        as [[l|]|e] eqn:Hrel; try discriminate.
      exists package_info, l. split; [reflexivity|]. split; [assumption|].
      split; [assumption|]. congruence.
    + left. exists package_info.
      rewrite (get_component_not_found E req op ver url package_info Hp Hr Hm)
        in Hout.
      cbn [outcome snd] in Hout. split; [reflexivity|]. split; [assumption|].
      congruence.
Qed.

(** The printed lines of a resolved requirement: the unpinned warning, then
    at most one further line. *)
Lemma get_component_output_cases (req : Requirement) (op ver url : string) :
  pinned req op ver ->
  exists rest,
    output (get_component E req url)
    = unpinned_warning op (req_name req) ver ++ rest
    /\ (rest = [] \/ rest = [retrieval_warning (req_name req)]
        \/ rest = [not_found_warning (req_name req) ver]).
Proof.
  intros Hp.
  destruct (requests_get E (url_format E url (req_name req) ver))
    as [|package_info] eqn:Hr.
  - rewrite (get_component_unavailable E req op ver url Hp Hr).
    eexists. split; [reflexivity | auto].
  - destruct (Dict.mem ver (releases package_info)) eqn:Hm.
    + rewrite (get_component_found E req op ver url package_info Hp Hr Hm).
      exists []. rewrite app_nil_r. auto.
    + rewrite (get_component_not_found E req op ver url package_info Hp Hr Hm).
      eexists. split; [reflexivity | auto].
Qed.

End ReturnedComponent.

(** X1 — identity fields.  Whatever the registry answers, a component that
    [get_component] returns has the name of the requirement, the version of
    its first specifier, the identifier built from these two, and the type
    [library]. *)
Theorem component_identity_from_requirement :
  forall (E : Env) (req : Requirement) (url : string) (c : Component),
    outcome (get_component E req url) = Ret (Some c) ->
    exists op ver,
      pinned req op ver
      /\ name c = req_name req
      /\ version c = ver
      /\ purl c = generate_purl E (req_name req) ver
      /\ component_type c = "library".
Proof.
  intros E req url c Hout.
  destruct (get_component_Ret_cases E req url c Hout)
    as (op & ver & Hp & [[_ ->] | [(pi & _ & _ & ->) | (pi & l & _ & _ & _ & ->)]]);
    exists op, ver; (split; [assumption|]); repeat split.
Qed.

Lemma component_identity_from_requirement_witness :
  exists op ver,
    pinned req_a op ver
    /\ name (with_hashes (with_info sample_env (minimal_component sample_env "a" "1.0") package_a)
               [mkHash "MD5" "C"; mkHash "SHA-256" "B"]) = req_name req_a
    /\ version (with_hashes (with_info sample_env (minimal_component sample_env "a" "1.0") package_a)
                  [mkHash "MD5" "C"; mkHash "SHA-256" "B"]) = ver
    /\ purl (with_hashes (with_info sample_env (minimal_component sample_env "a" "1.0") package_a)
               [mkHash "MD5" "C"; mkHash "SHA-256" "B"])
       = generate_purl sample_env (req_name req_a) ver
    /\ component_type
         (with_hashes (with_info sample_env (minimal_component sample_env "a" "1.0") package_a)
            [mkHash "MD5" "C"; mkHash "SHA-256" "B"]) = "library".
Proof.
  apply (component_identity_from_requirement sample_env req_a "u").
  reflexivity.
Defined.

(** X2 — hashes need a release key.  A returned component has hashes only
    when the registry answered and the version of the requirement is a key
    of its release index. *)
Theorem hashes_only_for_release_key :
  forall (E : Env) (req : Requirement) (url : string) (c : Component),
    outcome (get_component E req url) = Ret (Some c) ->
    hashes c <> [] ->
    exists package_info,
      requests_get E (url_format E url (name c) (version c)) = Json package_info
      /\ In (version c) (Dict.keys (releases package_info)).
Proof.
  intros E req url c Hout Hne.
  destruct (get_component_Ret_cases E req url c Hout)
    as (op & ver & Hp & [[_ ->] | [(pi & _ & _ & ->) | (pi & l & Hr & Hm & _ & ->)]]).
  - now contradiction Hne.
  - now contradiction Hne.
  - exists pi. split; [exact Hr | now apply DictFacts.mem_In].
Qed.

Lemma hashes_only_for_release_key_witness :
  exists package_info,
    requests_get sample_env (url_format sample_env "u" "a" "1.0") = Json package_info
    /\ In "1.0" (Dict.keys (releases package_info)).
Proof.
  apply (hashes_only_for_release_key sample_env req_a "u"
           (with_hashes (with_info sample_env (minimal_component sample_env "a" "1.0") package_a)
              [mkHash "MD5" "C"; mkHash "SHA-256" "B"])).
  - reflexivity.
  - discriminate.
Defined.

(** ** What of a requirement the resolver uses *)

(** X4 — only the name and the first version matter.  Two requirements with
    the same name whose first specifiers carry the same version are resolved
    to the same outcome, whatever their operators and their further
    specifiers; their printed lines differ at most by the unpinned warning,
    which is printed first and exactly when the operator is not [==]. *)
Theorem operator_only_warns :
  forall (E : Env) (req1 req2 : Requirement) (op1 op2 ver url : string),
    pinned req1 op1 ver ->
    pinned req2 op2 ver ->
    req_name req1 = req_name req2 ->
    outcome (get_component E req1 url) = outcome (get_component E req2 url)
    /\ exists rest,
         output (get_component E req1 url)
         = unpinned_warning op1 (req_name req1) ver ++ rest
         /\ output (get_component E req2 url)
            = unpinned_warning op2 (req_name req1) ver ++ rest.
Proof.
  intros E req1 req2 op1 op2 ver url Hp1 Hp2 Hn.
  rewrite (get_component_pinned E req1 op1 ver url Hp1),
    (get_component_pinned E req2 op2 ver url Hp2), <- Hn.
  rewrite !unpinned_print. cbn [outcome output fst snd].
  split; [reflexivity|]. eexists. split; reflexivity.
Qed.

Lemma operator_only_warns_witness :
  outcome (get_component sample_env req_x "u")
  = outcome (get_component sample_env
               (mkRequirement false "" "x" [["=="; "3"; "extra"]; ["<"; "4"]]) "u")
  /\ exists rest,
       output (get_component sample_env req_x "u")
       = unpinned_warning ">=" (req_name req_x) "3" ++ rest
       /\ output (get_component sample_env
                    (mkRequirement false "" "x" [["=="; "3"; "extra"]; ["<"; "4"]])
                    "u")
          = unpinned_warning "==" (req_name req_x) "3" ++ rest.
Proof.
  apply (operator_only_warns sample_env req_x
           (mkRequirement false "" "x" [["=="; "3"; "extra"]; ["<"; "4"]])
           ">=" "==" "3" "u").
  - split; [reflexivity|]. now exists [], [].
  - split; [reflexivity|]. now exists ["extra"], [["<"; "4"]].
  - reflexivity.
Defined.

(** X5 — at most two lines per requirement.  [get_component] prints at
    most two lines, and [read_bom] at most one line more than twice the
    number of requirements. *)
Theorem printed_lines_bound :
  forall (E : Env) (fd : list Requirement) (url : string),
    (forall req, length (output (get_component E req url)) <= 2)
    /\ length (output (read_bom_lists E fd url)) <= 1 + 2 * length fd.
Proof.
  intros E fd url.
  assert (Hone : forall req, length (output (get_component E req url)) <= 2).
  { intros req.
    destruct (requirement_cases req) as [H|[H|[H|(op & ver & Hp)]]].
    - rewrite get_component_skip_warning; auto.
    - rewrite get_component_skip_warning; auto.
    - destruct H as (Hl & spec0 & rest & Hs & Hlen).
      unfold get_component. rewrite Hl, Hs.
      apply Nat.ltb_lt in Hlen. rewrite Hlen. simpl. lia.
    - destruct (get_component_output_cases E req op ver url Hp)
        as (rest & Hout & Hrest).
      rewrite Hout, length_app. unfold unpinned_warning.
      destruct (negb (String.eqb op "==")),
        Hrest as [-> | [-> | ->]]; simpl; lia. }
  split; [exact Hone|].
  assert (Hloop : forall reqs components added_purls,
             length (output (collect_components E reqs url components added_purls))
             <= 2 * length reqs).
  { induction reqs as [|req rest IH]; intros components added_purls;
      cbn [collect_components].
    - simpl. lia.
    - pose proof (Hone req) as Hreq.
      destruct (get_component E req url) as [out [oc|e]]; cbn [output fst] in Hreq.
      + rewrite bind_Ret. cbn [output fst]. rewrite length_app.
        cbn [length].
        destruct oc as [c|];
          [destruct (existsb (String.eqb (purl c)) added_purls); cbn [negb]|];
          match goal with
          | |- context [output (collect_components E rest url ?cs ?ps)] =>
              pose proof (IH cs ps)
          end; lia.
      + cbn [bind output fst length]. lia. }
  unfold read_bom_lists, print. rewrite bind_Ret. cbn [output fst].
  pose proof (Hloop fd [] []) as Hfd.
  destruct (collect_components E fd url [] []) as [out [l|e]];
    cbn [output fst] in Hfd.
  - rewrite bind_Ret. cbn [output fst ret]. rewrite app_nil_r.
    cbn [length app]. lia.
  - cbn [bind output fst length app]. lia.
Qed.

(** ** [read_bom] from end to end *)

Section ReadBom.

Variable E : Env.

Lemma read_bom_split (fd : list Requirement) (url : string) (json : bool) :
  read_bom E fd url json
  = (output (read_bom_lists E fd url),
     match outcome (read_bom_lists E fd url) with
     | Ret (components, dependencies) =>
         Ret (if json then build_json_bom E components dependencies
              else build_xml_bom E components dependencies)
     | Raise e => Raise e
     end).
Proof.
  unfold read_bom.
  destruct (read_bom_lists E fd url) as [out [[components dependencies]|e]];
    cbn [output outcome fst snd]; [|reflexivity].
  rewrite bind_Ret. destruct json; cbn [output outcome fst snd ret];
    now rewrite app_nil_r.
Qed.

Lemma read_bom_lists_split (fd : list Requirement) (url : string) :
  read_bom_lists E fd url
  = ("Generating CycloneDX BOM" :: output (collect_components E fd url [] []),
     match outcome (collect_components E fd url [] []) with
     | Ret components => Ret (components, collect_dependencies E components)
     | Raise e => Raise e
     end).
Proof.
  unfold read_bom_lists, print. rewrite bind_Ret.
  destruct (collect_components E fd url [] []) as [out [l|e]];
    cbn [output outcome fst snd app]; [|reflexivity].
  rewrite bind_Ret. cbn [output outcome fst snd ret]. now rewrite app_nil_r.
Qed.

(** The lines of the first loop are those of the calls of [get_component]. *)
Lemma collect_components_output (url : string) (reqs : list Requirement) :
  forall (all : list (option Component)) (components : list Component)
         (added_purls : list string),
    all_components E reqs url = Some all ->
    output (collect_components E reqs url components added_purls)
    = concat (map (fun req => output (get_component E req url)) reqs).
Proof.
  induction reqs as [|req rest IH]; intros all components added_purls;
    cbn [collect_components all_components map concat].
  - reflexivity.
  - destruct (get_component E req url) as [out [oc|e]];
      cbn [outcome output fst snd]; [|discriminate].
    destruct (all_components E rest url) as [l|] eqn:Hrest; [|discriminate].
    intros _. rewrite bind_Ret. cbn [output fst]. f_equal.
    destruct oc as [c|];
      [destruct (existsb (String.eqb (purl c)) added_purls); cbn [negb]|];
      now apply (IH l).
Qed.

(** The first requirement whose resolution raises ends the first loop. *)
Lemma collect_components_Raise (url : string) (reqs : list Requirement) :
  forall (components : list Component) (added_purls : list string),
    all_components E reqs url = None ->
    exists before req after e,
      reqs = before ++ req :: after
      /\ (forall r, In r before ->
                    exists oc, outcome (get_component E r url) = Ret oc)
      /\ outcome (get_component E req url) = Raise e
      /\ outcome (collect_components E reqs url components added_purls) = Raise e.
Proof.
  induction reqs as [|req rest IH]; intros components added_purls;
    cbn [collect_components all_components]; [discriminate|].
  destruct (get_component E req url) as [out [oc|e]] eqn:Hreq;
    cbn [outcome snd].
  - destruct (all_components E rest url) as [l|] eqn:Hrest; [discriminate|].
    intros _. rewrite bind_Ret. cbn [outcome snd].
    assert (Hany : forall cs ps,
               exists before req0 after e,
                 req :: rest = before ++ req0 :: after
                 /\ (forall r, In r before ->
                               exists oc, outcome (get_component E r url) = Ret oc)
                 /\ outcome (get_component E req0 url) = Raise e
                 /\ outcome (collect_components E rest url cs ps) = Raise e).
    { intros cs ps.
      destruct (IH cs ps eq_refl) as (before & req0 & after & e & -> & Hb & Hr & Hc).
      exists (req :: before), req0, after, e.
      split; [reflexivity|]. split; [|auto].
      intros r [<-|Hin]; [|auto]. rewrite Hreq. cbn. eauto. }
    destruct oc as [c|];
      [destruct (existsb (String.eqb (purl c)) added_purls); cbn [negb]|];
      apply Hany.
  - intros _. exists [], req, rest, e.
    split; [reflexivity|]. split; [intros r []|].
    rewrite Hreq. cbn. auto.
Qed.

End ReadBom.

(** X6 — the outcome of [read_bom].  Either every requirement is resolved
    without an exception, and [read_bom] returns what the generator chosen
    by [json] makes of the deduplicated components and their dependency
    records; or [read_bom] raises the exception of the first requirement
    whose resolution raises, and no generator output is returned. *)
Theorem read_bom_outcome :
  forall (E : Env) (fd : list Requirement) (url : string) (json : bool),
    (exists all components dependencies,
        all_components E fd url = Some all
        /\ components = deduplicate all [] []
        /\ dependencies = map (get_dependency E components) components
        /\ outcome (read_bom E fd url json)
           = Ret (if json then build_json_bom E components dependencies
                  else build_xml_bom E components dependencies))
    \/ (exists before req after e,
           fd = before ++ req :: after
           /\ (forall r, In r before ->
                         exists oc, outcome (get_component E r url) = Ret oc)
           /\ outcome (get_component E req url) = Raise e
           /\ outcome (read_bom E fd url json) = Raise e).
Proof.
  intros E fd url json. rewrite read_bom_split. cbn [outcome snd].
  destruct (all_components E fd url) as [all|] eqn:Hall.
  - left. exists all, (deduplicate all [] []),
      (map (get_dependency E (deduplicate all [] [])) (deduplicate all [] [])).
    split; [reflexivity|]. split; [reflexivity|]. split; [reflexivity|].
    rewrite (read_bom_lists_all E fd url all Hall).
    now rewrite collect_dependencies_map.
  - right.
    destruct (collect_components_Raise E url fd [] [] Hall)
      as (before & req & after & e & Hfd & Hb & Hr & Hc).
    exists before, req, after, e. repeat (split; [assumption|]).
    rewrite read_bom_lists_split. cbn [outcome snd]. now rewrite Hc.
Qed.

(** X7 — the printed lines, in order.  When every requirement is resolved
    without an exception, [read_bom] prints the banner and then the lines of
    each call of [get_component], in the order of the manifest; a
    requirement listed twice is resolved, and warned about, twice. *)
Theorem read_bom_output :
  forall (E : Env) (fd : list Requirement) (url : string) (json : bool)
         (all : list (option Component)),
    all_components E fd url = Some all ->
    output (read_bom E fd url json)
    = "Generating CycloneDX BOM"
      :: concat (map (fun req => output (get_component E req url)) fd).
Proof.
  intros E fd url json all Hall.
  rewrite read_bom_split, read_bom_lists_split. cbn [output fst].
  now rewrite (collect_components_output E url fd all [] [] Hall).
Qed.

Lemma read_bom_output_witness :
  output (read_bom sample_env [req_x; req_file; req_x] "u" true)
  = "Generating CycloneDX BOM"
    :: concat (map (fun req => output (get_component sample_env req "u"))
                 [req_x; req_file; req_x]).
Proof.
  apply (read_bom_output sample_env [req_x; req_file; req_x] "u" true
           [Some (minimal_component sample_env "x" "3"); None;
            Some (minimal_component sample_env "x" "3")]).
  reflexivity.
Defined.

(** ** How many components *)

Section Counting.

Lemma subsequence_length {A : Type} (l1 l2 : list A) :
  subsequence l1 l2 -> length l1 <= length l2.
Proof. induction 1; simpl; lia. Qed.

Lemma subsequence_In {A : Type} (l1 l2 : list A) (x : A) :
  subsequence l1 l2 -> In x l1 -> In x l2.
Proof.
  induction 1; simpl; [tauto | auto |].
  intros [->|Hin]; auto.
Qed.

Lemma subsequence_same_length {A : Type} (l1 l2 : list A) :
  subsequence l1 l2 -> length l2 <= length l1 -> l1 = l2.
Proof.
  induction 1 as [|x l1 l2 Hsub IH|x l1 l2 Hsub IH]; simpl; intros Hlen.
  - reflexivity.
  - apply subsequence_length in Hsub. lia.
  - f_equal. apply IH. lia.
Qed.

Lemma yielded_length (all : list (option Component)) :
  length (yielded all) <= length all.
Proof.
  induction all as [|[c|] all IH]; simpl; lia.
Qed.

Lemma all_components_length (E : Env) (url : string) (reqs : list Requirement) :
  forall all, all_components E reqs url = Some all -> length all = length reqs.
Proof.
  induction reqs as [|req rest IH]; intros all; simpl.
  - now intros [= <-].
  - destruct (outcome (get_component E req url)) as [oc|e]; [|discriminate].
    destruct (all_components E rest url) as [l|]; [|discriminate].
    intros [= <-]. simpl. now rewrite (IH l).
Qed.

Lemma NoDup_map_NoDup {A B : Type} (f : A -> B) (l : list A) :
  NoDup (map f l) -> NoDup l.
Proof.
  induction l as [|x l IH]; simpl; intros H; [constructor|].
  inversion H as [|? ? Hnotin Hnd]; subst. constructor; [|auto].
  intros Hin. apply Hnotin. now apply in_map.
Qed.

(** Without repeated identifiers the loop keeps every component. *)
Lemma deduplicate_distinct (all : list (option Component)) :
  NoDup (map purl (yielded all)) -> deduplicate all [] [] = yielded all.
Proof.
  intros Hnd.
  destruct (deduplicate_spec all [] (NoDup_nil _))
    as (added & Heq & _ & Hsub & Hin).
  simpl in Heq. rewrite Heq.
  apply subsequence_same_length; [assumption|].
  apply NoDup_incl_length; [now apply NoDup_map_NoDup in Hnd|].
  intros c Hc. apply Hin. split; [|simpl; tauto].
  destruct (In_nth_error _ _ Hc) as [i Hi].
  exists i. split; [assumption|]. split; [reflexivity|].
  intros j c' Hj Hc' Heqp.
  assert (Hij : nth_error (map purl (yielded all)) j
                = nth_error (map purl (yielded all)) i).
  { rewrite !nth_error_map, Hi, Hc'. simpl. now rewrite Heqp. }
  apply NoDup_nth_error in Hij; [lia | assumption |].
  rewrite length_map. apply nth_error_Some. congruence.
Qed.

End Counting.

(** X8 — how many components.  When every requirement is resolved without
    an exception, the component list has at most one component per
    requirement; when moreover the components yielded have pairwise
    distinct identifiers, the list is exactly the components yielded, in
    the order of the manifest. *)
Theorem read_bom_component_count :
  forall (E : Env) (fd : list Requirement) (url : string)
         (all : list (option Component)),
    all_components E fd url = Some all ->
    exists components dependencies,
      outcome (read_bom_lists E fd url) = Ret (components, dependencies)
      /\ length components <= length fd
      /\ length dependencies = length components
      /\ (NoDup (map purl (yielded all)) -> components = yielded all).
Proof.
  intros E fd url all Hall.
  exists (deduplicate all [] []), (collect_dependencies E (deduplicate all [] [])).
  split; [now apply read_bom_lists_all|]. split; [|split].
  - destruct (deduplicate_spec all [] (NoDup_nil _))
      as (added & Heq & _ & Hsub & _).
    simpl in Heq. rewrite Heq.
    apply subsequence_length in Hsub.
    pose proof (yielded_length all).
    rewrite <- (all_components_length E url fd all Hall). lia.
  - rewrite collect_dependencies_map. apply length_map.
  - apply deduplicate_distinct.
Qed.

Lemma read_bom_component_count_witness :
  exists components dependencies,
    outcome (read_bom_lists sample_env [req_a; req_file; req_b] "u")
    = Ret (components, dependencies)
    /\ length components <= 3
    /\ length dependencies = length components.
Proof.
  destruct (read_bom_component_count sample_env [req_a; req_file; req_b] "u"
              _ eq_refl)
    as (components & dependencies & Hout & Hlen & Hdeps & _).
  exists components, dependencies. auto.
Defined.

(** ** The release lookup *)

(** X9 — the release lookup returns what the index stores.  An artifact
    list returned by [get_release_info] is stored in the release index:
    under the requested version itself when that version is not special,
    and otherwise under a non-empty key whose canonical form, or which
    itself, is the requested version. *)
Theorem release_info_is_stored :
  forall (E : Env) (package_info : PackageInfo) (v : string)
         (release_info : list Release),
    outcome (get_release_info E package_info v) = Ret (Some release_info) ->
    exists k,
      In (k, release_info) (releases package_info)
      /\ Dict.get (releases package_info) k = Some release_info
      /\ ((is_special E v = false /\ k = v)
          \/ (is_special E v = true /\ equivalent_key E v k /\ k <> "")).
Proof.
  intros E package_info v release_info. unfold get_release_info.
  destruct (is_special E v) eqn:Hs.
  - destruct (_get_pypi_version E v (Dict.keys (releases package_info)))
      as [k|] eqn:Hk.
    + destruct (String.eqb_spec k "") as [->|Hne].
      * unfold no_matching_version, package_info_name.
        destruct (pkg_name package_info); discriminate.
      * unfold releases_item.
        destruct (Dict.get (releases package_info) k) as [l|] eqn:Hg;
          [|discriminate].
        rewrite bind_ret_l. cbn. intros [= <-].
        exists k. split; [now apply DictFacts.get_In|]. split; [assumption|].
        right. split; [reflexivity|]. split; [|assumption].
        apply _get_pypi_version_first in Hk. now destruct Hk as (_ & _ & Hp & _).
    + unfold no_matching_version, package_info_name.
      destruct (pkg_name package_info); discriminate.
  - cbn. intros [= Hg]. exists v.
    split; [now apply DictFacts.get_In|]. split; [assumption|]. now left.
Qed.

Lemma release_info_is_stored_witness :
  exists k,
    In (k, [sdist_A]) (releases package_c)
    /\ Dict.get (releases package_c) k = Some [sdist_A]
    /\ ((is_special sample_env "1rc1" = false /\ k = "1rc1")
        \/ (is_special sample_env "1rc1" = true
            /\ equivalent_key sample_env "1rc1" k /\ k <> "")).
Proof.
  apply (release_info_is_stored sample_env package_c "1rc1" [sdist_A]).
  reflexivity.
Defined.

(** X10 — when the release lookup raises.  [get_release_info] raises exactly
    for a special version for which the scan of the keys finds no key, or
    finds the empty key; it then prints nothing, and the exception is the
    [ValueError] that carries the top-level name of the document and the
    requested version, or a [KeyError] for ["name"] when the document has
    no such entry. *)
Theorem release_lookup_error :
  forall (E : Env) (package_info : PackageInfo) (v : string),
    ((exists e, outcome (get_release_info E package_info v) = Raise e)
     <-> is_special E v = true
         /\ forall k, first_such (equivalent_key E v)
                        (Dict.keys (releases package_info)) k -> k = "")
    /\ (forall e,
           outcome (get_release_info E package_info v) = Raise e ->
           get_release_info E package_info v = ([], Raise e)
           /\ e = match pkg_name package_info with
                  | Some n =>
                      ValueError
                        "Could not find a matching normalized version string"
                        n v
                  | None => KeyError "name"
                  end).
Proof.
  intros E package_info v.
  assert (Hno : forall A : Type,
             @no_matching_version A package_info v
             = ([], Raise match pkg_name package_info with
                          | Some n =>
                              ValueError
                                "Could not find a matching normalized version string"
                                n v
                          | None => KeyError "name"
                          end)).
  { intros A. unfold no_matching_version, package_info_name.
    now destruct (pkg_name package_info). }
  unfold get_release_info.
  destruct (is_special E v) eqn:Hs.
  - destruct (_get_pypi_version E v (Dict.keys (releases package_info)))
      as [k|] eqn:Hk.
    + destruct (String.eqb_spec k "") as [->|Hne].
      * rewrite Hno. cbn [outcome snd]. split.
        -- split; [|eauto]. intros _. split; [reflexivity|].
           intros k' Hk'. apply _get_pypi_version_first in Hk'. congruence.
        -- intros e [= <-]. auto.
      * destruct (releases_item_key (releases package_info) k) as (l & _ & ->).
        { now apply (_get_pypi_version_In E v). }
        rewrite bind_ret_l. cbn [outcome snd ret]. split.
        -- split; [intros [e He]; discriminate|].
           intros [_ H]. exfalso. apply Hne, H.
           now apply _get_pypi_version_first.
        -- intros e He. discriminate.
    + rewrite Hno. cbn [outcome snd]. split.
      * split; [|eauto]. intros _. split; [reflexivity|].
        intros k' Hk'. apply _get_pypi_version_first in Hk'. congruence.
      * intros e [= <-]. auto.
  - cbn [outcome snd ret]. split.
    + split; [intros [e He]; discriminate | intros [H _]; discriminate].
    + intros e He. discriminate.
Qed.

(** ** More on the hash selector *)

Section Selection.

Lemma has_wheel_app (l1 l2 : list Release) :
  has_wheel (l1 ++ l2) = has_wheel l1 || has_wheel l2.
Proof. unfold has_wheel. apply existsb_app. Qed.

Lemma relevant_releases_drop (l1 l2 : list Release) (r : Release) :
  ~ In r (relevant_releases (l1 ++ r :: l2)) ->
  relevant_releases (l1 ++ r :: l2) = relevant_releases (l1 ++ l2).
Proof.
  intros Hnot.
  assert (Htype : packagetype r
                  <> if has_wheel (l1 ++ r :: l2) then "bdist_wheel" else "sdist").
  { intros Heq. apply Hnot. apply relevant_releases_In.
    split; [|assumption]. apply in_or_app. right. now left. }
  assert (Hw : String.eqb (packagetype r) "bdist_wheel" = false).
  { apply String.eqb_neq. intros Heq.
    assert (Hhas : has_wheel (l1 ++ r :: l2) = true).
    { rewrite has_wheel_app. unfold has_wheel at 2. simpl.
      rewrite Heq. simpl. apply orb_true_r. }
    rewrite Hhas in Htype. contradiction. }
  assert (Hsame : has_wheel (l1 ++ r :: l2) = has_wheel (l1 ++ l2)).
  { rewrite !has_wheel_app. unfold has_wheel at 2. simpl. now rewrite Hw. }
  unfold relevant_releases. rewrite <- Hsame.
  rewrite !filter_app. f_equal. simpl. rewrite Hw, andb_false_r. simpl.
  destruct (has_wheel (l1 ++ r :: l2)); simpl; [reflexivity|].
  apply String.eqb_neq in Htype. now rewrite Htype.
Qed.

End Selection.

(** X11 — artifacts that are not kept do not count.  Removing from the
    release an artifact that the selection does not keep (a source
    distribution when there is a wheel, an artifact of another type) leaves
    the selected hashes unchanged. *)
Theorem get_hashes_ignores_dropped :
  forall (l1 l2 : list Release) (r : Release),
    ~ In r (relevant_releases (l1 ++ r :: l2)) ->
    get_hashes (l1 ++ r :: l2) = get_hashes (l1 ++ l2).
Proof.
  intros l1 l2 r Hnot. unfold get_hashes.
  now rewrite (relevant_releases_drop l1 l2 r Hnot).
Qed.

Lemma get_hashes_ignores_dropped_witness :
  get_hashes ([wheel_B] ++ sdist_A :: [wheel_C]) = get_hashes ([wheel_B] ++ [wheel_C]).
Proof.
  apply (get_hashes_ignores_dropped [wheel_B] [wheel_C] sdist_A).
  simpl. intros [H|[H|[]]]; discriminate.
Defined.

(** ** The order of the hashes of a component *)

Section HashOrder.

Lemma subsequence_nil_l {A : Type} (l : list A) : subsequence [] l.
Proof. induction l; now constructor. Qed.

Lemma subsequence_map {A B : Type} (f : A -> B) (l1 l2 : list A) :
  subsequence l1 l2 -> subsequence (map f l1) (map f l2).
Proof. induction 1; simpl; now constructor. Qed.

(** An increasing list of numbers of an interval is a subsequence of the
    interval. *)
Lemma increasing_subsequence (n : nat) :
  forall (lo : nat) (l : list nat),
    StronglySorted lt l ->
    Forall (fun x => lo <= x < lo + n) l ->
    subsequence l (seq lo n).
Proof.
  induction n as [|n IH]; intros lo l Hs Hf; simpl.
  - destruct l as [|x l]; [constructor|].
    inversion Hf; subst. lia.
  - destruct l as [|x l]; [apply subsequence_nil_l|].
    inversion Hs as [|? ? Hs' Hall]; subst.
    inversion Hf as [|? ? Hx Hf']; subst.
    destruct (Nat.eq_dec x lo) as [->|Hne].
    + apply subseq_keep. apply IH; [assumption|].
      rewrite Forall_forall in *. intros y Hy.
      specialize (Hall y Hy). specialize (Hf' y Hy). lia.
    + apply subseq_skip. apply IH; [assumption|].
      constructor; [lia|].
      rewrite Forall_forall in *. intros y Hy.
      specialize (Hall y Hy). specialize (Hf' y Hy). lia.
Qed.

Lemma tag_rank (a : string) : In a (Dict.values mapping) -> alg_tag (alg_rank a) = a.
Proof.
  simpl. intros [<-|[<-|[<-|[<-|[]]]]]; reflexivity.
Qed.

Lemma rank_bound (a : string) : alg_rank a < 4.
Proof.
  unfold alg_rank.
  destruct (String.eqb a "MD5"), (String.eqb a "SHA-1"),
    (String.eqb a "SHA-256"); lia.
Qed.

Lemma rank_lt (a b : string) :
  In a (Dict.values mapping) -> In b (Dict.values mapping) ->
  String.leb a b = true -> a <> b -> alg_rank a < alg_rank b.
Proof.
  simpl.
  intros [<-|[<-|[<-|[<-|[]]]]] [<-|[<-|[<-|[<-|[]]]]] Hle Hne;
    try discriminate; try (now contradiction Hne); cbv; lia.
Qed.

(** Tags of [mapping] that are sorted and pairwise distinct come in the
    order of [mapping]. *)
Lemma sorted_tags_subsequence (ts : list string) :
  Forall (fun a => In a (Dict.values mapping)) ts ->
  NoDup ts ->
  Sorted (fun a b => String.leb a b = true) ts ->
  subsequence ts (Dict.values mapping).
Proof.
  intros Hin Hnd Hs.
  assert (Hrank : Sorted lt (map alg_rank ts)).
  { induction ts as [|a ts IH]; simpl; [constructor|].
    inversion Hin as [|? ? Ha Hin']; subst.
    inversion Hnd as [|? ? Hnotin Hnd']; subst.
    inversion Hs as [|? ? Hs' Hhd]; subst.
    constructor; [now apply IH|].
    destruct ts as [|b ts]; simpl; constructor.
    inversion Hhd; subst. inversion Hin'; subst.
    apply rank_lt; try assumption.
    intros ->. apply Hnotin. now left. }
  apply Sorted_StronglySorted in Hrank; [|intros x y z; lia].
  apply (increasing_subsequence 4 0) in Hrank.
  - apply (subsequence_map alg_tag) in Hrank.
    rewrite map_map in Hrank.
    rewrite (map_ext_in (fun a => alg_tag (alg_rank a)) (fun a => a)) in Hrank.
    + now rewrite map_id in Hrank.
    + intros a Ha. apply tag_rank. rewrite Forall_forall in Hin. auto.
  - apply Forall_forall. intros x Hx. apply in_map_iff in Hx as (a & <- & _).
    pose proof (rank_bound a). lia.
Qed.

Lemma sorted_by_alg_map (l : list Hash) :
  sorted_by_alg l -> Sorted (fun a b => String.leb a b = true) (map alg l).
Proof.
  unfold sorted_by_alg. induction 1 as [|h l Hs IH Hhd]; simpl; constructor.
  - assumption.
  - destruct Hhd; simpl; now constructor.
Qed.

(** The sorted selection lists its algorithms in the order of [mapping]. *)
Lemma sorted_hashes_order (releases : list Release) :
  subsequence (map alg (sort (get_hashes releases))) (Dict.values mapping).
Proof.
  pose proof (sort_perm (get_hashes releases)) as Hperm.
  apply sorted_tags_subsequence.
  - apply Forall_forall. intros a Ha. apply in_map_iff in Ha as (h & <- & Hh).
    apply (Permutation_in _ (Permutation_sym Hperm)) in Hh.
    destruct (get_hashes_recognized releases h Hh) as (k & _ & _ & _ & Hk).
    apply DictFacts.get_In in Hk.
    change (alg h) with (snd (k, alg h)). now apply in_map.
  - apply (Permutation_NoDup (Permutation_map alg Hperm)).
    apply get_hashes_NoDup.
  - apply sorted_by_alg_map, sort_sorted.
Qed.

End HashOrder.

(** X13 — the hashes of a component.  The algorithms of the hashes of a
    returned component form a subsequence of MD5, SHA-1, SHA-256, SHA-512:
    at most one hash per algorithm, at most four hashes, always in this
    order, whatever the order of the artifacts and of their digests. *)
Theorem component_hashes_order :
  forall (E : Env) (req : Requirement) (url : string) (c : Component),
    outcome (get_component E req url) = Ret (Some c) ->
    subsequence (map alg (hashes c)) ["MD5"; "SHA-1"; "SHA-256"; "SHA-512"]
    /\ length (hashes c) <= 4.
Proof.
  intros E req url c Hout.
  assert (Hsub : subsequence (map alg (hashes c)) (Dict.values mapping)).
  { destruct (get_component_Ret_cases E req url c Hout)
      as (op & ver & _ & [[_ ->] | [(pi & _ & _ & ->) | (pi & l & _ & _ & _ & ->)]]).
    - apply subsequence_nil_l.
    - apply subsequence_nil_l.
    - apply sorted_hashes_order. }
  split; [exact Hsub|].
  apply subsequence_length in Hsub. rewrite length_map in Hsub. exact Hsub.
Qed.

Lemma component_hashes_order_witness :
  subsequence
    (map alg (hashes (with_hashes
                        (with_info sample_env (minimal_component sample_env "a" "1.0")
                           package_a)
                        [mkHash "MD5" "C"; mkHash "SHA-256" "B"])))
    ["MD5"; "SHA-1"; "SHA-256"; "SHA-512"]
  /\ length (hashes (with_hashes
                       (with_info sample_env (minimal_component sample_env "a" "1.0")
                          package_a)
                       [mkHash "MD5" "C"; mkHash "SHA-256" "B"])) <= 4.
Proof.
  apply (component_hashes_order sample_env req_a "u").
  reflexivity.
Defined.

(** ** Requirements without a name *)

(** C7 — a requirement without a version specifier and without a name.  The
    record of a manifest line that names no package and is not a local file
    meets the skip condition "no version specifier", but [get_component]
    neither prints the warning nor returns [None]: building the warning
    raises a [TypeError], and nothing is printed. *)
Theorem unnamed_requirement_raises :
  forall (E : Env) (path url : string),
    get_component_parsed E (Unnamed false path) url
    = ([], Raise (TypeError concatenate_None))
    /\ length (output (get_component_parsed E (Unnamed false path) url)) <> 1
    /\ outcome (get_component_parsed E (Unnamed false path) url) <> Ret None.
Proof.
  intros E path url. cbn. repeat split; discriminate.
Qed.

(** C9 — an exception that escapes the resolver.  On the record of a
    manifest line that names no package and is not a local file,
    [get_component] raises an exception that is not the error of the release
    lookup (neither its [ValueError] nor a [KeyError]); a local file without
    a name is skipped with its warning. *)
Theorem exception_escapes_resolver :
  forall (E : Env) (path url : string),
    (exists e,
        outcome (get_component_parsed E (Unnamed false path) url) = Raise e
        /\ (forall msg n v, e <> ValueError msg n v)
        /\ (forall k, e <> KeyError k))
    /\ outcome (get_component_parsed E (Unnamed true path) url) = Ret None.
Proof.
  intros E path url. split; [|reflexivity].
  exists (TypeError concatenate_None). cbn. repeat split; discriminate.
Qed.
